(** * The prefetching data layer of caffe (src/caffe/layers/base_data_layer.cpp)

    A shallow embedding of [BaseDataLayer] and [BasePrefetchingDataLayer]:
    the pool of [PREFETCH_COUNT] batches, the two hand-off queues
    [prefetch_free_] and [prefetch_full_], the worker thread
    ([InternalThreadEntry]) and the consumer entry point ([Forward_cpu]).

    The two threads are modelled as program counters over the statements of
    the source; one transition is one statement.  The whole layer is a
    transition system in which the worker, the consumer, the device that
    completes asynchronous copies and the caller (set-up, calls, interruption
    request) interleave freely. *)

From stdpp Require Import base list strings.
From Stdlib Require Import ZArith Lia.

Open Scope nat_scope.
Open Scope list_scope.

Module caffe.

(** ** Blobs *)

(** Modelled from the spec: the class [Blob] is declared in caffe/blob.hpp,
    which is not among the sources.  A blob has a shape, contiguous values on
    the host and, once staged, values on the device; [host_ready] and
    [device_ready] record that the storage of that side has been touched
    (allocated). *)
Record Blob := mkBlob {
  shape_ : list nat;
  host : list Z;
  host_ready : bool;
  device : list Z;
  device_ready : bool
}.

(** [Blob::count()]: the number of values, the product of the shape. *)
Definition count (b : Blob) : nat := foldr Nat.mul 1 (shape_ b).

(** [Blob::cpu_data()]. *)
Definition cpu_data (b : Blob) : list Z := host b.

(** The [count()] values a blob holds on the host. *)
Definition values (b : Blob) : list Z := take (count b) (cpu_data b).

(** [Blob::mutable_cpu_data()]: touches the host storage. *)
Definition mutable_cpu_data (b : Blob) : Blob :=
  mkBlob (shape_ b) (host b) true (device b) (device_ready b).

(** [Blob::mutable_gpu_data()]: touches the device storage. *)
Definition mutable_gpu_data (b : Blob) : Blob :=
  mkBlob (shape_ b) (host b) (host_ready b) (device b) true.

(** Modelled from the spec: [Blob::ReshapeLike] ("reshape to match a given
    shape: resizes backing storage if needed, preserves no prior contents").
    The host storage is resized to the new count, new cells are zero. *)
Definition ReshapeLike (b other : Blob) : Blob :=
  mkBlob (shape_ other) (resize (count other) 0%Z (host b)) (host_ready b)
         (device b) (device_ready b).

(** [caffe_copy(n, X, Y)]: the first [n] values of [Y] become those of [X]. *)
Definition caffe_copy (n : nat) (X Y : list Z) : list Z := take n X ++ drop n Y.

(** [caffe_copy(src.count(), src.cpu_data(), dst->mutable_cpu_data())]. *)
Definition copy_into (src dst : Blob) : Blob :=
  mkBlob (shape_ dst) (caffe_copy (count src) (cpu_data src) (host dst)) true
         (device dst) (device_ready dst).

(** Modelled from the spec: the completion of the asynchronous copy of a
    blob to the device that [SyncedMemory::async_gpu_push] asks for. *)
Definition staged (b : Blob) : Blob :=
  mkBlob (shape_ b) (host b) (host_ready b) (host b) true.

(** ** Batches *)

(** The ten arrays of a [Batch]: the primary array and nine secondary ones,
    under the names the source uses. *)
Record Batch := mkBatch {
  data_ : Blob;
  label_ : Blob;
  label1_ : Blob;
  label2_ : Blob;
  label3_ : Blob;
  label4_ : Blob;
  label5_ : Blob;
  label6_ : Blob;
  imageindex_ : Blob;
  windowindex_ : Blob
}.

Inductive member :=
| m_data | m_label | m_label1 | m_label2 | m_label3 | m_label4 | m_label5
| m_label6 | m_imageindex | m_windowindex.

#[global] Instance member_eq_dec : EqDecision member.
Proof. solve_decision. Defined.

Definition get (m : member) (b : Batch) : Blob :=
  match m with
  | m_data => data_ b | m_label => label_ b | m_label1 => label1_ b
  | m_label2 => label2_ b | m_label3 => label3_ b | m_label4 => label4_ b
  | m_label5 => label5_ b | m_label6 => label6_ b
  | m_imageindex => imageindex_ b | m_windowindex => windowindex_ b
  end.

Definition upd (m : member) (f : Blob → Blob) (b : Batch) : Batch :=
  match b with
  | mkBatch d l l1 l2 l3 l4 l5 l6 ii wi =>
    match m with
    | m_data => mkBatch (f d) l l1 l2 l3 l4 l5 l6 ii wi
    | m_label => mkBatch d (f l) l1 l2 l3 l4 l5 l6 ii wi
    | m_label1 => mkBatch d l (f l1) l2 l3 l4 l5 l6 ii wi
    | m_label2 => mkBatch d l l1 (f l2) l3 l4 l5 l6 ii wi
    | m_label3 => mkBatch d l l1 l2 (f l3) l4 l5 l6 ii wi
    | m_label4 => mkBatch d l l1 l2 l3 (f l4) l5 l6 ii wi
    | m_label5 => mkBatch d l l1 l2 l3 l4 (f l5) l6 ii wi
    | m_label6 => mkBatch d l l1 l2 l3 l4 l5 (f l6) ii wi
    | m_imageindex => mkBatch d l l1 l2 l3 l4 l5 l6 (f ii) wi
    | m_windowindex => mkBatch d l l1 l2 l3 l4 l5 l6 ii (f wi)
    end
  end.

(** The nine secondary arrays, in the order of the source. *)
Definition secondary : list member :=
  [m_label; m_label1; m_label2; m_label3; m_label4; m_label5; m_label6;
   m_imageindex; m_windowindex].

(** The destination of an array in [Forward_cpu]: [top[0]] for [data_],
    [top[1]] for [label_], ..., [top[9]] for [windowindex_]. *)
Definition top_index (m : member) : nat :=
  match m with
  | m_data => 0 | m_label => 1 | m_label1 => 2 | m_label2 => 3
  | m_label3 => 4 | m_label4 => 5 | m_label5 => 6 | m_label6 => 7
  | m_imageindex => 8 | m_windowindex => 9
  end.

Definition empty_blob : Blob := mkBlob [] [] false [] false.

Definition empty_batch : Batch :=
  mkBatch empty_blob empty_blob empty_blob empty_blob empty_blob empty_blob
          empty_blob empty_blob empty_blob empty_blob.

(** ** Calls made by the layer, in the order they are made *)

Inductive event :=
(* BaseDataLayer::LayerSetUp, lines 25-29 *)
| EvTransformerReset
| EvInitRand
| EvDataLayerSetUp
(* BasePrefetchingDataLayer::LayerSetUp, lines 50-84 *)
| EvMutableCpuData (i : nat) (m : member)
| EvMutableGpuData (i : nat) (m : member)
| EvStartInternalThread
(* InternalThreadEntry *)
| EvStreamCreate
| EvPopFree (b : nat)
| EvLoadBatch (b : nat)
| EvLoadReturn (b : nat) (vals : list Z)
| EvAsyncGpuPush (b : nat) (m : member)
| EvStreamSynchronize
| EvPushFull (b : nat)
| EvInterrupted
| EvStreamDestroy
(* Forward_cpu *)
| EvPopFull (diagnostic : string) (b : nat)
| EvReshapeLike (i : nat) (m : member)
| EvCopy (i : nat) (m : member) (vals : list Z)
| EvPushFree (b : nat).

(** ** Program counters *)

(** The worker: one constructor per statement of [InternalThreadEntry]. *)
Inductive worker_pc :=
| WIdle                 (* the thread has not been started *)
| WEntry                (* lines 91-95 *)
| WLoop                 (* line 98, the test of the loop *)
| WPop                  (* line 99 *)
| WLoad (b : nat)       (* line 100, the call of load_batch *)
| WLoading (b : nat)    (* line 100, inside load_batch *)
| WStage (b : nat)      (* line 103 *)
| WSync (b : nat)       (* line 104 *)
| WPush (b : nat)       (* line 107 *)
| WCleanup              (* lines 112-116 *)
| WDone.                (* the thread function has returned *)

(** The consumer: one constructor per statement of [Forward_cpu]. *)
Inductive consumer_pc :=
| CIdle
| CPop                            (* line 122 *)
| CReshape (m : member) (b : nat) (* lines 124, 131-139 *)
| CCopy (m : member) (b : nat)    (* lines 126, 141-158 *)
| CPush (b : nat).                (* line 161 *)

(** The local [cudaStream_t stream] of the worker, with the copies
    enqueued on it that have not completed. *)
Inductive stream_state :=
| StreamNone
| StreamLive (pending : list (nat * member))
| StreamDestroyed.

(** ** The layer *)

(** Slots are referred to by their index in [prefetch_] (the source holds
    the pointers [&prefetch_[i]]). *)
Record Pipeline := mkPipeline {
  prefetch_ : list Batch;
  prefetch_free_ : list nat;
  prefetch_full_ : list nat;
  output_labels_ : bool;
  top : list Blob;
  wpc : worker_pc;
  cpc : consumer_pc;
  stream : stream_state;
  interruption_requested : bool;
  loads : nat;
  trace : list event
}.

Definition set_prefetch (v : list Batch) (s : Pipeline) : Pipeline :=
  mkPipeline v (prefetch_free_ s) (prefetch_full_ s) (output_labels_ s) (top s)
    (wpc s) (cpc s) (stream s) (interruption_requested s) (loads s) (trace s).
Definition set_free (v : list nat) (s : Pipeline) : Pipeline :=
  mkPipeline (prefetch_ s) v (prefetch_full_ s) (output_labels_ s) (top s)
    (wpc s) (cpc s) (stream s) (interruption_requested s) (loads s) (trace s).
Definition set_full (v : list nat) (s : Pipeline) : Pipeline :=
  mkPipeline (prefetch_ s) (prefetch_free_ s) v (output_labels_ s) (top s)
    (wpc s) (cpc s) (stream s) (interruption_requested s) (loads s) (trace s).
Definition set_output_labels (v : bool) (s : Pipeline) : Pipeline :=
  mkPipeline (prefetch_ s) (prefetch_free_ s) (prefetch_full_ s) v (top s)
    (wpc s) (cpc s) (stream s) (interruption_requested s) (loads s) (trace s).
Definition set_top (v : list Blob) (s : Pipeline) : Pipeline :=
  mkPipeline (prefetch_ s) (prefetch_free_ s) (prefetch_full_ s)
    (output_labels_ s) v
    (wpc s) (cpc s) (stream s) (interruption_requested s) (loads s) (trace s).
Definition set_wpc (v : worker_pc) (s : Pipeline) : Pipeline :=
  mkPipeline (prefetch_ s) (prefetch_free_ s) (prefetch_full_ s)
    (output_labels_ s) (top s)
    v (cpc s) (stream s) (interruption_requested s) (loads s) (trace s).
Definition set_cpc (v : consumer_pc) (s : Pipeline) : Pipeline :=
  mkPipeline (prefetch_ s) (prefetch_free_ s) (prefetch_full_ s)
    (output_labels_ s) (top s)
    (wpc s) v (stream s) (interruption_requested s) (loads s) (trace s).
Definition set_stream (v : stream_state) (s : Pipeline) : Pipeline :=
  mkPipeline (prefetch_ s) (prefetch_free_ s) (prefetch_full_ s)
    (output_labels_ s) (top s)
    (wpc s) (cpc s) v (interruption_requested s) (loads s) (trace s).
Definition set_interruption (v : bool) (s : Pipeline) : Pipeline :=
  mkPipeline (prefetch_ s) (prefetch_free_ s) (prefetch_full_ s)
    (output_labels_ s) (top s)
    (wpc s) (cpc s) (stream s) v (loads s) (trace s).
Definition set_loads (v : nat) (s : Pipeline) : Pipeline :=
  mkPipeline (prefetch_ s) (prefetch_free_ s) (prefetch_full_ s)
    (output_labels_ s) (top s)
    (wpc s) (cpc s) (stream s) (interruption_requested s) v (trace s).
Definition log (es : list event) (s : Pipeline) : Pipeline :=
  mkPipeline (prefetch_ s) (prefetch_free_ s) (prefetch_full_ s)
    (output_labels_ s) (top s)
    (wpc s) (cpc s) (stream s) (interruption_requested s) (loads s)
    (trace s ++ es).

(** ** The hand-off queues *)

(** Modelled from the spec: [BlockingQueue] is declared in
    caffe/util/blocking_queue.hpp, which is not among the sources.  [push]
    inserts at the tail and never blocks; [pop] removes the head and blocks
    while the queue is empty, which the transition functions below render as
    the absence of a transition; a pop that is blocked can be interrupted. *)
Definition push (q : list nat) (x : nat) : list nat := q ++ [x].

Definition try_pop (q : list nat) : option (nat * list nat) :=
  match q with
  | [] => None
  | x :: q' => Some (x, q')
  end.

Section Layer.

(** [PREFETCH_COUNT] is declared in caffe/data_layers.hpp, [gpu_mode] stands
    for "compiled without CPU_ONLY and [Caffe::mode() == Caffe::GPU]". *)
Variable PREFETCH_COUNT : nat.
Variable gpu_mode : bool.

(** The hook [DataLayerSetUp] of the subclass, as its effect on slot [i]. *)
Variable DataLayerSetUp : list Blob → nat → Batch → Batch.

(** The callback [load_batch] of the subclass, under the contract the spec
    gives it: it returns, does not raise and has no interruption point.  It
    is not atomic: the slot goes through the half-written contents
    [load_batch_begin k] before the [k]-th call returns with
    [load_batch_end k] applied. *)
Variable load_batch_begin : nat → Batch → Batch.
Variable load_batch_end : nat → Batch → Batch.

Definition load_batch (k : nat) (b : Batch) : Batch :=
  load_batch_end k (load_batch_begin k b).

(** *** Construction (lines 32-40) *)

Definition BasePrefetchingDataLayer (labels0 : bool) : Pipeline :=
  mkPipeline (replicate PREFETCH_COUNT empty_batch)
             (foldl push [] (seq 0 PREFETCH_COUNT)) []
             labels0 [] WIdle CIdle StreamNone false 0 [].

(** *** BaseDataLayer::LayerSetUp (lines 17-30) *)

Definition BaseDataLayer_LayerSetUp (top_ : list Blob) (s : Pipeline)
  : Pipeline :=
  let s := if decide (length top_ = 1)
           then set_output_labels false s
           else set_output_labels true s in
  let s := log [EvTransformerReset] s in
  let s := log [EvInitRand] s in
  log [EvDataLayerSetUp]
      (set_prefetch (imap (DataLayerSetUp top_) (prefetch_ s)) s).

(** *** BasePrefetchingDataLayer::LayerSetUp (lines 42-86) *)

(** [prefetch_[i].m.mutable_cpu_data()] or [mutable_gpu_data()]: [f] is the
    accessor, [ev] the call it is logged as. *)
Definition touch (f : Blob → Blob) (ev : nat → member → event)
    (i : nat) (s : Pipeline) (m : member) : Pipeline :=
  log [ev i m] (set_prefetch (alter (upd m f) i (prefetch_ s)) s).

(** The body of the loops of lines 50-63 and 66-79. *)
Definition warm (f : Blob → Blob) (ev : nat → member → event)
    (s : Pipeline) (i : nat) : Pipeline :=
  let s := touch f ev i s m_data in
  if output_labels_ s then foldl (touch f ev i) s secondary else s.

Definition warm_cpu : Pipeline → nat → Pipeline :=
  warm mutable_cpu_data EvMutableCpuData.

Definition warm_gpu : Pipeline → nat → Pipeline :=
  warm mutable_gpu_data EvMutableGpuData.

(** Modelled from the spec: [InternalThread::StartInternalThread] is
    declared in caffe/internal_thread.hpp, which is not among the sources.
    It spawns the worker; a worker that was started already is fatal. *)
Definition StartInternalThread (s : Pipeline) : option Pipeline :=
  match wpc s with
  | WIdle => Some (log [EvStartInternalThread] (set_wpc WEntry s))
  | _ => None
  end.

Definition LayerSetUp (top_ : list Blob) (s : Pipeline) : option Pipeline :=
  let s := BaseDataLayer_LayerSetUp top_ s in
  let s := foldl warm_cpu s (seq 0 PREFETCH_COUNT) in
  let s := if gpu_mode then foldl warm_gpu s (seq 0 PREFETCH_COUNT) else s in
  let s := log [EvInitRand] s in
  StartInternalThread s.

(** *** InternalThreadEntry (lines 88-117) *)

(** Modelled from the spec: [InternalThread::must_stop], declared in
    caffe/internal_thread.hpp, reads the shutdown flag of the thread. *)
Definition must_stop (s : Pipeline) : bool := interruption_requested s.

Definition next_after_load (b : nat) : worker_pc :=
  if gpu_mode then WStage b else WPush b.

Definition InternalThreadEntry_step (s : Pipeline) : option Pipeline :=
  match wpc s with
  | WIdle => None
  | WEntry =>
      (* 91-95 *)
      if gpu_mode
      then Some (log [EvStreamCreate] (set_stream (StreamLive []) (set_wpc WLoop s)))
      else Some (set_wpc WLoop s)
  | WLoop =>
      (* 98 *)
      if must_stop s then Some (set_wpc WCleanup s) else Some (set_wpc WPop s)
  | WPop =>
      (* 99; the catch of line 109 when the blocked pop is interrupted *)
      match try_pop (prefetch_free_ s) with
      | Some (b, q) => Some (log [EvPopFree b] (set_free q (set_wpc (WLoad b) s)))
      | None =>
          if interruption_requested s
          then Some (log [EvInterrupted] (set_wpc WCleanup s))
          else None
      end
  | WLoad b =>
      (* 100, load_batch is entered *)
      batch ← prefetch_ s !! b;
      Some (log [EvLoadBatch b]
             (set_prefetch (<[b := load_batch_begin (loads s) batch]> (prefetch_ s))
               (set_wpc (WLoading b) s)))
  | WLoading b =>
      (* 100, load_batch returns *)
      batch ← prefetch_ s !! b;
      let batch' := load_batch_end (loads s) batch in
      Some (log [EvLoadReturn b (values (data_ batch'))]
             (set_prefetch (<[b := batch']> (prefetch_ s))
               (set_loads (S (loads s)) (set_wpc (next_after_load b) s))))
  | WStage b =>
      (* 103 *)
      match stream s with
      | StreamLive pending =>
          Some (log [EvAsyncGpuPush b m_data]
                 (set_stream (StreamLive (pending ++ [(b, m_data)]))
                   (set_wpc (WSync b) s)))
      | _ => None
      end
  | WSync b =>
      (* 104, blocks until the stream has no copy left *)
      match stream s with
      | StreamLive [] => Some (log [EvStreamSynchronize] (set_wpc (WPush b) s))
      | _ => None
      end
  | WPush b =>
      (* 107 *)
      Some (log [EvPushFull b]
             (set_full (push (prefetch_full_ s) b) (set_wpc WLoop s)))
  | WCleanup =>
      (* 112-116 *)
      if gpu_mode
      then Some (log [EvStreamDestroy] (set_stream StreamDestroyed (set_wpc WDone s)))
      else Some (set_wpc WDone s)
  | WDone => None
  end.

(** The device completes the oldest copy of the stream. *)
Definition device_step (s : Pipeline) : option Pipeline :=
  match stream s with
  | StreamLive ((b, m) :: pending) =>
      Some (set_prefetch (alter (upd m staged) b (prefetch_ s))
             (set_stream (StreamLive pending) s))
  | _ => None
  end.

(** *** Forward_cpu (lines 119-162) *)

Definition diagnostic : string := "Data layer prefetch queue empty".

(** The statement that follows a [ReshapeLike]. *)
Definition after_reshape (m : member) (b : nat) : consumer_pc :=
  match m with
  | m_data => CCopy m_data b                 (* 124 -> 126 *)
  | m_label => CReshape m_label1 b           (* 131 -> 132 *)
  | m_label1 => CReshape m_label2 b
  | m_label2 => CReshape m_label3 b
  | m_label3 => CReshape m_label4 b
  | m_label4 => CReshape m_label5 b
  | m_label5 => CReshape m_label6 b
  | m_label6 => CReshape m_imageindex b
  | m_imageindex => CReshape m_windowindex b (* 138 -> 139 *)
  | m_windowindex => CCopy m_label b         (* 139 -> 141 *)
  end.

(** The statement that follows a [caffe_copy]. *)
Definition after_copy (labels : bool) (m : member) (b : nat) : consumer_pc :=
  match m with
  | m_data => if labels then CReshape m_label b else CPush b  (* 129 *)
  | m_label => CCopy m_label1 b              (* 141 -> 143 *)
  | m_label1 => CCopy m_label2 b
  | m_label2 => CCopy m_label3 b
  | m_label3 => CCopy m_label4 b
  | m_label4 => CCopy m_label5 b
  | m_label5 => CCopy m_label6 b
  | m_label6 => CCopy m_imageindex b
  | m_imageindex => CCopy m_windowindex b    (* 155 -> 157 *)
  | m_windowindex => CPush b                 (* 157 -> 161 *)
  end.

(** One statement of [Forward_cpu].  [top[i]] with [i] out of range is
    undefined behaviour in the source: the model has no transition then. *)
Definition Forward_cpu_step (s : Pipeline) : option Pipeline :=
  match cpc s with
  | CIdle => None
  | CPop =>
      (* 122 *)
      match try_pop (prefetch_full_ s) with
      | Some (b, q) =>
          Some (log [EvPopFull diagnostic b]
                 (set_full q (set_cpc (CReshape m_data b) s)))
      | None => None
      end
  | CReshape m b =>
      batch ← prefetch_ s !! b;
      dst ← top s !! top_index m;
      Some (log [EvReshapeLike (top_index m) m]
             (set_top (<[top_index m := ReshapeLike dst (get m batch)]> (top s))
               (set_cpc (after_reshape m b) s)))
  | CCopy m b =>
      batch ← prefetch_ s !! b;
      dst ← top s !! top_index m;
      Some (log [EvCopy (top_index m) m (values (get m batch))]
             (set_top (<[top_index m := copy_into (get m batch) dst]> (top s))
               (set_cpc (after_copy (output_labels_ s) m b) s)))
  | CPush b =>
      (* 161 *)
      Some (log [EvPushFree b]
             (set_free (push (prefetch_free_ s) b) (set_cpc CIdle s)))
  end.

(** The caller enters [Forward_cpu] with its vector of destinations. *)
Definition Forward_cpu_call (top_ : list Blob) (s : Pipeline)
  : option Pipeline :=
  match cpc s with
  | CIdle => Some (set_top top_ (set_cpc CPop s))
  | _ => None
  end.

(** The statements of [Forward_cpu] up to its return, without interference.
    [None]: the call blocks (empty full queue) or is undefined. *)
Fixpoint Forward_cpu_run (fuel : nat) (s : Pipeline) : option Pipeline :=
  match fuel with
  | 0 => None
  | S fuel =>
      s' ← Forward_cpu_step s;
      match cpc s' with
      | CIdle => Some s'
      | _ => Forward_cpu_run fuel s'
      end
  end.

(** A call has at most 22 statements: the pop, ten reshapes, ten copies and
    the push. *)
Definition Forward_cpu (top_ : list Blob) (s : Pipeline) : option Pipeline :=
  s' ← Forward_cpu_call top_ s; Forward_cpu_run 22 s'.

(** The request of an interruption of the worker (teardown). *)
Definition request_interruption (s : Pipeline) : Pipeline :=
  set_interruption true s.

(** ** The transition system *)

Inductive action :=
| ASetUp (top_ : list Blob)
| AWorker
| ADevice
| ACall (top_ : list Blob)
| AConsumer
| AInterrupt.

(** Set-up and [Forward_cpu] run on the same (main) thread, so set-up is
    not entered while a call is in progress. *)
Definition perform (a : action) (s : Pipeline) : option Pipeline :=
  match a with
  | ASetUp top_ =>
      match cpc s with CIdle => LayerSetUp top_ s | _ => None end
  | AWorker => InternalThreadEntry_step s
  | ADevice => device_step s
  | ACall top_ => Forward_cpu_call top_ s
  | AConsumer => Forward_cpu_step s
  | AInterrupt => Some (request_interruption s)
  end.

Definition step (s s' : Pipeline) : Prop := ∃ a, perform a s = Some s'.

Inductive reachable : Pipeline → Prop :=
| reachable_init labels0 : reachable (BasePrefetchingDataLayer labels0)
| reachable_step s s' : reachable s → step s s' → reachable s'.

(** A schedule, run from a state. *)
Fixpoint run (acts : list action) (s : Pipeline) : option Pipeline :=
  match acts with
  | [] => Some s
  | a :: acts => s' ← perform a s; run acts s'
  end.

End Layer.

Arguments reachable_init {_ _ _ _ _}.

(** ** Set-up in closed form *)

(** The arrays touched by one iteration of a warm-up loop. *)
Definition warm_members (labels : bool) : list member :=
  m_data :: (if labels then secondary else []).

(** The effect of one iteration of a warm-up loop on its slot. *)
Definition warm_batch (f : Blob → Blob) (labels : bool) (b : Batch) : Batch :=
  foldl (λ b m, upd m f b) b (warm_members labels).

Definition warm_pool (f : Blob → Blob) (labels : bool) (n : nat)
    (p : list Batch) : list Batch :=
  foldl (λ p i, alter (warm_batch f labels) i p) p (seq 0 n).

Definition warm_events (ev : nat → member → event) (labels : bool) (n : nat)
  : list event :=
  flat_map (λ i, map (ev i) (warm_members labels)) (seq 0 n).

(** A change of the pool together with the calls logged for it. *)
Definition touching (p : list Batch) (es : list event) (s : Pipeline)
  : Pipeline := log es (set_prefetch p s).

(** The value [BaseDataLayer::LayerSetUp] gives to [output_labels_]. *)
Definition negotiated (top_ : list Blob) : bool :=
  if decide (length top_ = 1) then false else true.

(** The calls of set-up. *)
Definition is_setup_event (e : event) : bool :=
  match e with
  | EvTransformerReset | EvInitRand | EvDataLayerSetUp | EvMutableCpuData _ _
  | EvMutableGpuData _ _ | EvStartInternalThread => true
  | _ => false
  end.

(** The calls of [LayerSetUp] before the worker is started, for
    [PREFETCH_COUNT = n]. *)
Definition warmup_events (n : nat) (gpu : bool) (labels : bool) : list event :=
  [EvTransformerReset; EvInitRand; EvDataLayerSetUp]
  ++ warm_events EvMutableCpuData labels n
  ++ (if gpu then warm_events EvMutableGpuData labels n else [])
  ++ [EvInitRand].

(** The pool when the worker is started. *)
Definition warmup_pool (n : nat) (gpu : bool)
    (hook : list Blob → nat → Batch → Batch)
    (top_ : list Blob) (p : list Batch) : list Batch :=
  let labels := negotiated top_ in
  let p := imap (hook top_) p in
  let p := warm_pool mutable_cpu_data labels n p in
  if gpu then warm_pool mutable_gpu_data labels n p else p.

(** ** Observations on a state *)

(** The slot the worker holds between its pop and its push. *)
Definition wslot (pc : worker_pc) : list nat :=
  match pc with
  | WLoad b | WLoading b | WStage b | WSync b | WPush b => [b]
  | _ => []
  end.

(** The slot the consumer holds between its pop and its push. *)
Definition cslot (pc : consumer_pc) : list nat :=
  match pc with
  | CReshape _ b | CCopy _ b | CPush b => [b]
  | _ => []
  end.

(** The four places a slot can be referenced from. *)
Definition owners (s : Pipeline) : list nat :=
  prefetch_free_ s ++ prefetch_full_ s ++ wslot (wpc s) ++ cslot (cpc s).

(** The primary arrays the worker produced, in the order of production. *)
Definition produced (tr : list event) : list (list Z) :=
  omap (λ e, match e with EvLoadReturn _ vals => Some vals | _ => None end) tr.

(** The primary arrays copied into [top[0]], in the order of delivery. *)
Definition delivered (tr : list event) : list (list Z) :=
  omap (λ e, match e with EvCopy _ m_data vals => Some vals | _ => None end) tr.

(** The calls of the worker thread among the events of a trace. *)
Definition is_worker_event (e : event) : bool :=
  match e with
  | EvStreamCreate | EvPopFree _ | EvLoadBatch _ | EvLoadReturn _ _
  | EvAsyncGpuPush _ _ | EvStreamSynchronize | EvPushFull _ | EvInterrupted
  | EvStreamDestroy => true
  | _ => false
  end.

Definition worker_trace (tr : list event) : list event :=
  List.filter is_worker_event tr.

(** The copies not yet completed on the stream of the worker. *)
Definition pending_of (st : stream_state) : list (nat * member) :=
  match st with
  | StreamLive pending => pending
  | _ => []
  end.

Definition pending_copies (s : Pipeline) : list (nat * member) :=
  pending_of (stream s).

(** Every slot is in exactly one of the four places. *)
Definition slots_conserved (n : nat) (s : Pipeline) : Prop :=
  owners s ≡ₚ seq 0 n ∧ length (prefetch_ s) = n.

(** The number of references to slot [b] in a list of references. *)
Definition refs (b : nat) (l : list nat) : nat := count_occ Nat.eq_dec l b.

(** The slot whose primary array the consumer has popped but not copied. *)
Definition cpre (pc : consumer_pc) : list nat :=
  match pc with
  | CReshape m_data b | CCopy m_data b => [b]
  | _ => []
  end.

(** The slot the worker has loaded but not pushed. *)
Definition wpost (pc : worker_pc) : list nat :=
  match pc with
  | WStage b | WSync b | WPush b => [b]
  | _ => []
  end.

(** The values of the primary array of slot [b]. *)
Definition content (p : list Batch) (b : nat) : list Z :=
  match p !! b with
  | Some batch => values (data_ batch)
  | None => []
  end.

(** The slots that hold a batch produced and not delivered, oldest first. *)
Definition in_flight (s : Pipeline) : list nat :=
  cpre (cpc s) ++ prefetch_full_ s ++ wpost (wpc s).

Definition in_order (s : Pipeline) : Prop :=
  produced (trace s) =
  delivered (trace s) ++ map (content (prefetch_ s)) (in_flight s).

(** Before the worker is started nothing has been produced. *)
Definition not_started (s : Pipeline) : Prop :=
  wpc s = WIdle →
  prefetch_full_ s = [] ∧ cslot (cpc s) = [] ∧ stream s = StreamNone ∧
  loads s = 0 ∧ worker_trace (trace s) = [].


(** The primary array of slot [b] is on the device as it is on the host. *)
Definition staged_ok (p : list Batch) (b : nat) : Prop :=
  ∃ batch, p !! b = Some batch ∧ device (data_ batch) = host (data_ batch).

(** The slots declared full: in the full queue or with the consumer. *)
Definition published (s : Pipeline) : list nat :=
  prefetch_full_ s ++ cslot (cpc s).

(** The slot the worker is about to push. *)
Definition synced_slot (pc : worker_pc) : list nat :=
  match pc with
  | WPush b => [b]
  | _ => []
  end.

Definition staging_inv (gpu : bool) (s : Pipeline) : Prop :=
  (gpu = true →
   ∀ b, b ∈ published s ++ synced_slot (wpc s) → staged_ok (prefetch_ s) b) ∧
  match wpc s with
  | WSync b =>
      pending_copies s = [(b, m_data)] ∨
      (pending_copies s = [] ∧ staged_ok (prefetch_ s) b)
  | _ => pending_copies s = []
  end.




(** Every copy to the device the worker has asked for is a copy of a
    primary array. *)
Definition only_primary_staged (tr : list event) : Prop :=
  ∀ b m, EvAsyncGpuPush b m ∈ tr → m = m_data.

(** The transitions of the staging of a slot: lines 103 and 104 of the
    worker, and the completion of a copy by the device. *)
Definition staging_step (s : Pipeline) (a : action) : Prop :=
  a = ADevice ∨
  (a = AWorker ∧ ∃ b, wpc s = WStage b ∨ wpc s = WSync b).

(** The calls of one [Forward_cpu] between its pop and its push, for the
    batch of the slot it popped. *)
Definition forward_events (labels : bool) (batch : Batch) : list event :=
  [EvReshapeLike 0 m_data; EvCopy 0 m_data (values (data_ batch))]
  ++ (if labels
      then map (λ m, EvReshapeLike (top_index m) m) secondary
           ++ map (λ m, EvCopy (top_index m) m (values (get m batch))) secondary
      else []).

(** What a destination becomes when an array is reshaped to and copied
    into it. *)
Definition received (dst src : Blob) : Blob :=
  copy_into src (ReshapeLike dst src).

(** A reshape of, or a copy into, a destination of a secondary array. *)
Definition secondary_access (e : event) : bool :=
  match e with
  | EvReshapeLike _ m | EvCopy _ m _ => if decide (m = m_data) then false else true
  | _ => false
  end.

(** The consumer is not at a statement on a secondary array. *)
Definition primary_pc (pc : consumer_pc) : Prop :=
  match pc with
  | CReshape m _ | CCopy m _ => m = m_data
  | _ => True
  end.

Definition labels_off_inv (s : Pipeline) : Prop :=
  output_labels_ s = false →
  Forall (λ e, secondary_access e = false) (trace s) ∧ primary_pc (cpc s).

(** Before the worker is started no destination has been written. *)
Definition quiet_before_start (s : Pipeline) : Prop :=
  wpc s = WIdle → Forall (λ e, secondary_access e = false) (trace s).

(** ** The life of the stream and the passes of the loop *)

(** The stream of the worker, by its program counter: created at the entry
    of the thread function and destroyed before its return, in GPU mode
    only. *)
Definition stream_inv (gpu : bool) (s : Pipeline) : Prop :=
  match wpc s with
  | WIdle | WEntry => stream s = StreamNone
  | WDone => stream s = (if gpu then StreamDestroyed else StreamNone)
  | _ => if gpu then ∃ pending, stream s = StreamLive pending
         else stream s = StreamNone
  end.

(** The creation and the destruction of the stream. *)
Definition is_stream_lifetime (e : event) : bool :=
  match e with
  | EvStreamCreate | EvStreamDestroy => true
  | _ => false
  end.

(** The calls of the worker, by its program counter: in GPU mode the
    creation of the stream is the first and its destruction the last, and
    neither occurs in between. *)
Definition stream_bracket (gpu : bool) (s : Pipeline) : Prop :=
  ∃ body, Forall (λ e, is_stream_lifetime e = false) body ∧
    worker_trace (trace s) =
      match wpc s with
      | WIdle | WEntry => []
      | WDone => (if gpu then [EvStreamCreate] else []) ++ body
                 ++ (if gpu then [EvStreamDestroy] else [])
      | _ => (if gpu then [EvStreamCreate] else []) ++ body
      end.

(** The calls that need a device. *)
Definition is_device_call (e : event) : bool :=
  match e with
  | EvMutableGpuData _ _ | EvStreamCreate | EvAsyncGpuPush _ _
  | EvStreamSynchronize | EvStreamDestroy => true
  | _ => false
  end.

(** The layer in CPU mode: no device call is made, no stream exists and
    the worker is not at a staging statement. *)
Definition host_only (s : Pipeline) : Prop :=
  Forall (λ e, is_device_call e = false) (trace s) ∧
  stream s = StreamNone ∧
  match wpc s with WStage _ | WSync _ => False | _ => True end.

(** The calls of one pass of the loop of the worker on slot [b] before its
    push, [vals] being the values of the primary array [load_batch] left. *)
Definition pass_events (gpu : bool) (b : nat) (vals : list Z) : list event :=
  [EvPopFree b; EvLoadBatch b; EvLoadReturn b vals]
  ++ (if gpu then [EvAsyncGpuPush b m_data; EvStreamSynchronize] else []).

(** In a trace of the worker, every push onto the full queue ends a pass of
    the loop on that slot. *)
Definition pushes_loaded (gpu : bool) (wt : list event) : Prop :=
  ∀ pre post b, wt = pre ++ EvPushFull b :: post →
    ∃ pre' vals, pre = pre' ++ pass_events gpu b vals.

(** The calls of the pass in progress, by the program counter. *)
Definition pass_progress (gpu : bool) (pc : worker_pc) (wt : list event)
  : Prop :=
  match pc with
  | WLoad b => ∃ pre, wt = pre ++ [EvPopFree b]
  | WLoading b => ∃ pre, wt = pre ++ [EvPopFree b; EvLoadBatch b]
  | WStage b =>
      gpu = true ∧
      ∃ pre vals, wt = pre ++ [EvPopFree b; EvLoadBatch b; EvLoadReturn b vals]
  | WSync b =>
      gpu = true ∧
      ∃ pre vals,
        wt = pre ++ [EvPopFree b; EvLoadBatch b; EvLoadReturn b vals;
                     EvAsyncGpuPush b m_data]
  | WPush b => ∃ pre vals, wt = pre ++ pass_events gpu b vals
  | _ => True
  end.

Definition pass_inv (gpu : bool) (s : Pipeline) : Prop :=
  pushes_loaded gpu (worker_trace (trace s)) ∧
  pass_progress gpu (wpc s) (worker_trace (trace s)).

(** One pass of the loop of the worker (lines 98-108) as a schedule: the
    test, the pop, [load_batch] (two transitions), in GPU mode the
    asynchronous copy, its completion by the device and the synchronization,
    and the push. *)
Definition pass (gpu : bool) : list action :=
  [AWorker; AWorker; AWorker; AWorker]
  ++ (if gpu then [AWorker; ADevice; AWorker] else [])
  ++ [AWorker].

(** [k] passes of the loop, one after the other. *)
Fixpoint passes (gpu : bool) (k : nat) : list action :=
  match k with
  | 0 => []
  | S k => pass gpu ++ passes gpu k
  end.



(** The destinations a call of [Forward_cpu] in progress has used so far
    exist. *)
Definition destinations_inv (s : Pipeline) : Prop :=
  match cpc s with
  | CReshape m _ => top_index m ≤ length (top s)
  | CCopy m_data _ => 1 ≤ length (top s)
  | CCopy _ _ => 10 ≤ length (top s)
  | _ => True
  end.

(** ** The calls of the consumer *)

Definition is_consumer_event (e : event) : bool :=
  match e with
  | EvPopFull _ _ | EvReshapeLike _ _ | EvCopy _ _ _ | EvPushFree _ => true
  | _ => false
  end.

Definition consumer_trace (tr : list event) : list event :=
  List.filter is_consumer_event tr.

(** The calls of one [Forward_cpu] on slot [b] holding [batch]. *)
Definition call_events (labels : bool) (b : nat) (batch : Batch)
  : list event :=
  [EvPopFull diagnostic b] ++ forward_events labels batch ++ [EvPushFree b].

(** The number of calls the [Forward_cpu] in progress has made. *)
Definition statements_done (pc : consumer_pc) : nat :=
  match pc with
  | CIdle | CPop => 0
  | CReshape m_data _ => 1
  | CReshape m _ => S (S (top_index m))
  | CCopy m_data _ => 2
  | CCopy m _ => 11 + top_index m
  | CPush _ => 21
  end.

(** The calls of the [Forward_cpu] in progress. *)
Definition call_in_progress (s : Pipeline) : list event :=
  match cslot (cpc s) with
  | [b] =>
      match prefetch_ s !! b with
      | Some batch =>
          take (statements_done (cpc s))
               ([EvPopFull diagnostic b]
                ++ forward_events (output_labels_ s) batch)
      | None => []
      end
  | _ => []
  end.

(** The calls of the consumer are those of a sequence of whole calls of
    [Forward_cpu], then those of the call in progress. *)
Definition whole_calls (s : Pipeline) : Prop :=
  ∃ calls : list (bool * nat * Batch),
    consumer_trace (trace s) =
    flat_map (λ c, call_events c.1.1 c.1.2 c.2) calls ++ call_in_progress s.

(** ** A concrete layer: three slots and a loader that stamps batch [k] *)

Module Demo.

Definition write (sh : list nat) (vals : list Z) (b : Blob) : Blob :=
  mkBlob sh vals true (device b) (device_ready b).

(** The [k]-th batch is two cells holding [k] and one label [100 + k];
    half-way the second cell is still unwritten. *)
Definition stamp_begin (k : nat) (b : Batch) : Batch :=
  upd m_data (write [2] [Z.of_nat k; (-1)%Z]) b.

Definition stamp_end (k : nat) (b : Batch) : Batch :=
  upd m_label (write [1] [Z.of_nat (100 + k)])
      (upd m_data (write [2] [Z.of_nat k; Z.of_nat k]) b).

Definition no_hook (top_ : list Blob) (i : nat) (b : Batch) : Batch := b.

Definition top1 : list Blob := [empty_blob].
Definition top10 : list Blob := replicate 10 empty_blob.

Definition init (labels0 : bool) : Pipeline :=
  BasePrefetchingDataLayer 3 labels0.

Definition go (gpu : bool) (acts : list action) (s : Pipeline)
  : option Pipeline :=
  run 3 gpu no_hook stamp_begin stamp_end acts s.

(** One iteration of the worker on the device path: pop, load (two
    transitions), stage, completion of the copy, synchronize, push, test. *)
Definition produce_gpu : list action :=
  [AWorker; AWorker; AWorker; AWorker; ADevice; AWorker; AWorker; AWorker].

(** One iteration of the worker on the host path. *)
Definition produce_cpu : list action :=
  [AWorker; AWorker; AWorker; AWorker; AWorker].

(** One call of [Forward_cpu] with a single destination. *)
Definition consume1 : list action :=
  [ACall top1; AConsumer; AConsumer; AConsumer; AConsumer].

(** One call of [Forward_cpu] with ten destinations, up to the copy of
    the primary array. *)
Definition consume10_data : list action :=
  [ACall top10; AConsumer; AConsumer; AConsumer].

(** The worker has staged slot 2 and waits for the device, slot 1 is full,
    the consumer holds slot 0 and has copied its primary array. *)
Definition busy_schedule : list action :=
  [ASetUp top10; AWorker; AWorker] ++ produce_gpu ++ produce_gpu
  ++ consume10_data ++ [AWorker; AWorker; AWorker; AWorker].

Definition busy : Pipeline :=
  Eval vm_compute in
    from_option id (init true) (go true busy_schedule (init true)).

(** Two batches are full and no call is in progress, labels enabled. *)
Definition ready_schedule : list action :=
  [ASetUp top10; AWorker; AWorker] ++ produce_gpu ++ produce_gpu.

Definition ready : Pipeline :=
  Eval vm_compute in
    from_option id (init true) (go true ready_schedule (init true)).

Definition ready_batch : Batch :=
  Eval vm_compute in from_option id empty_batch (prefetch_ ready !! 0).

(** One batch is full and no call is in progress, labels disabled. *)
Definition ready1_schedule : list action :=
  [ASetUp top1; AWorker; AWorker] ++ produce_cpu.

Definition ready1 : Pipeline :=
  Eval vm_compute in
    from_option id (init true) (go false ready1_schedule (init true)).

Definition ready1_batch : Batch :=
  Eval vm_compute in from_option id empty_batch (prefetch_ ready1 !! 0).

(** The three slots are full: the worker is blocked in its pop. *)
Definition blocked_schedule : list action :=
  [ASetUp top10; AWorker; AWorker] ++ produce_gpu ++ produce_gpu
  ++ produce_gpu.

Definition blocked : Pipeline :=
  Eval vm_compute in
    from_option id (init true) (go true blocked_schedule (init true)).


(** The worker has been started and is at the test of its loop: the three
    slots are free. *)
Definition primed_schedule : list action := [ASetUp top10; AWorker].

Definition primed : Pipeline :=
  Eval vm_compute in
    from_option id (init true) (go true primed_schedule (init true)).

Definition primed_batch : Batch :=
  Eval vm_compute in from_option id empty_batch (prefetch_ primed !! 0).

End Demo.

End caffe.

Import caffe.

(** * Properties *)

(** ** Set-up in closed form *)

(** Evaluation of the field updates and projections of a state, innermost
    first. *)
Ltac setters :=
  cbv beta iota delta
    [touching log set_prefetch set_free set_full set_output_labels set_top
     set_wpc set_cpc set_stream set_interruption set_loads
     prefetch_ prefetch_free_ prefetch_full_ output_labels_ top wpc cpc
     stream interruption_requested loads trace] in *.

Lemma touching_touching p1 es1 p2 es2 s :
  touching p1 es1 (touching p2 es2 s) = touching p1 (es2 ++ es1) s.
Proof. destruct s; setters. by rewrite <- app_assoc. Qed.

Lemma touching_id s : touching (prefetch_ s) [] s = s.
Proof. destruct s; setters. by rewrite app_nil_r. Qed.

Lemma foldl_touch f ev i ms s :
  foldl (touch f ev i) s ms =
  touching (foldl (λ p m, alter (upd m f) i p) (prefetch_ s) ms)
           (map (ev i) ms) s.
Proof.
  revert s. induction ms as [|m ms IH]; intros s; simpl.
  - by rewrite touching_id.
  - rewrite IH. unfold touch. fold (touching (alter (upd m f) i (prefetch_ s)) [ev i m] s).
    by rewrite touching_touching.
Qed.

Lemma foldl_alter_upd f i ms (p : list Batch) :
  foldl (λ p m, alter (upd m f) i p) p ms =
  alter (λ b, foldl (λ b m, upd m f b) b ms) i p.
Proof.
  revert p. induction ms as [|m ms IH]; intros p; simpl.
  - symmetry. by apply list_alter_id.
  - rewrite IH. by rewrite list_alter_alter_eq.
Qed.

Lemma warm_eq f ev s i :
  warm f ev s i =
  touching (alter (warm_batch f (output_labels_ s)) i (prefetch_ s))
           (map (ev i) (warm_members (output_labels_ s))) s.
Proof.
  unfold warm, warm_batch, warm_members. cbv zeta.
  change (output_labels_ (touch f ev i s m_data)) with (output_labels_ s).
  destruct (output_labels_ s).
  - rewrite foldl_touch, foldl_alter_upd. unfold touch.
    fold (touching (alter (upd m_data f) i (prefetch_ s)) [ev i m_data] s).
    rewrite touching_touching. f_equal.
    change (prefetch_ (touching ?p ?e s)) with p.
    by rewrite list_alter_alter_eq.
  - reflexivity.
Qed.

Lemma foldl_warm f ev l s :
  foldl (warm f ev) s l =
  touching (foldl (λ p i, alter (warm_batch f (output_labels_ s)) i p)
                  (prefetch_ s) l)
           (flat_map (λ i, map (ev i) (warm_members (output_labels_ s))) l) s.
Proof.
  revert s. induction l as [|i l IH]; intros s.
  - simpl. by rewrite touching_id.
  - cbn [foldl flat_map]. rewrite IH, warm_eq.
    destruct s; setters. by rewrite <- !app_assoc.
Qed.

(** ** Traces *)

Lemma produced_app t1 t2 : produced (t1 ++ t2) = produced t1 ++ produced t2.
Proof. apply omap_app. Qed.

Lemma delivered_app t1 t2 : delivered (t1 ++ t2) = delivered t1 ++ delivered t2.
Proof. apply omap_app. Qed.

Lemma worker_trace_app t1 t2 :
  worker_trace (t1 ++ t2) = worker_trace t1 ++ worker_trace t2.
Proof. apply List.filter_app. Qed.

Section Properties.

Variable PREFETCH_COUNT : nat.
Variable gpu_mode : bool.
Variable DataLayerSetUp : list Blob → nat → Batch → Batch.
Variable load_batch_begin : nat → Batch → Batch.
Variable load_batch_end : nat → Batch → Batch.

Abbreviation LayerSetUp := (LayerSetUp PREFETCH_COUNT gpu_mode DataLayerSetUp).
Abbreviation BaseDataLayer_LayerSetUp := (BaseDataLayer_LayerSetUp DataLayerSetUp).
Abbreviation InternalThreadEntry_step :=
  (InternalThreadEntry_step gpu_mode load_batch_begin load_batch_end).
Abbreviation perform :=
  (perform PREFETCH_COUNT gpu_mode DataLayerSetUp load_batch_begin load_batch_end).
Abbreviation step :=
  (step PREFETCH_COUNT gpu_mode DataLayerSetUp load_batch_begin load_batch_end).
Abbreviation reachable :=
  (reachable PREFETCH_COUNT gpu_mode DataLayerSetUp load_batch_begin load_batch_end).
Abbreviation run :=
  (run PREFETCH_COUNT gpu_mode DataLayerSetUp load_batch_begin load_batch_end).

Abbreviation warmup_events := (warmup_events PREFETCH_COUNT gpu_mode).
Abbreviation warmup_pool :=
  (warmup_pool PREFETCH_COUNT gpu_mode DataLayerSetUp).
Abbreviation slots_conserved := (slots_conserved PREFETCH_COUNT).

Lemma LayerSetUp_eq top_ s :
  LayerSetUp top_ s =
  match wpc s with
  | WIdle =>
      Some (mkPipeline (warmup_pool top_ (prefetch_ s)) (prefetch_free_ s)
              (prefetch_full_ s) (negotiated top_) (top s) WEntry (cpc s)
              (stream s) (interruption_requested s) (loads s)
              (trace s ++ warmup_events (negotiated top_)
                       ++ [EvStartInternalThread]))
  | _ => None
  end.
Proof.
  unfold caffe.LayerSetUp, warm_cpu, warm_gpu. cbv zeta.
  destruct gpu_mode eqn:Hgpu; rewrite !foldl_warm;
    unfold caffe.BaseDataLayer_LayerSetUp, StartInternalThread, warmup_pool,
      warmup_events, negotiated, warm_pool, warm_events; rewrite ?Hgpu;
    destruct s as [p fr fu ol tp w c st ir ld tr];
    destruct (decide (length top_ = 1)); setters;
    destruct w; try reflexivity; setters;
    do 2 f_equal; rewrite <- ?app_assoc; reflexivity.
Qed.

(** ** Slot conservation *)

Lemma foldl_push_seq n : foldl push [] (seq 0 n) = seq 0 n.
Proof.
  induction n as [|n IH]; [done|].
  by rewrite seq_S, foldl_app, IH.
Qed.

Lemma length_warm_pool f labels n p : length (warm_pool f labels n p) = length p.
Proof.
  unfold warm_pool. generalize (seq 0 n). intros l. revert p.
  induction l as [|i l IH]; intros p; simpl; [done|].
  by rewrite IH, length_alter.
Qed.

Lemma length_warmup_pool top_ p : length (warmup_pool top_ p) = length p.
Proof.
  unfold warmup_pool. cbv zeta.
  destruct gpu_mode; rewrite ?length_warm_pool; apply length_imap.
Qed.

(** Case analysis on a transition [H : step s s']: the state is opened into
    its fields and one goal is left per statement of the source. *)
Ltac case_step H :=
  cbv beta iota delta [mbind option_bind] in H;
  repeat match type of H with
  | context [match ?x with _ => _ end] =>
      first [ is_var x; destruct x
            | match x with
              | _ !! _ => let E := fresh "E" in destruct x eqn:E
              end ];
      cbv beta iota delta [mbind option_bind] in H;
      try discriminate H
  end;
  injection H as <-.

Ltac perform_cases s a H :=
  destruct s as [p fr fu ol tp w c st ir ld tr];
  destruct a; cbn [caffe.perform] in H;
  [ destruct c; try discriminate H;
    rewrite LayerSetUp_eq in H;
    destruct w; try discriminate H
  | unfold caffe.InternalThreadEntry_step, must_stop, try_pop,
      next_after_load in H
  | unfold device_step in H
  | unfold Forward_cpu_call in H
  | unfold Forward_cpu_step, try_pop in H
  | unfold request_interruption in H ];
  setters; case_step H; setters.

Ltac step_cases s H :=
  let a := fresh "a" in
  destruct H as [a H]; perform_cases s a H.

Lemma cslot_after_reshape m b : cslot (after_reshape m b) = [b].
Proof. by destruct m. Qed.

Lemma cslot_after_copy labels m b : cslot (after_copy labels m b) = [b].
Proof. by destruct m, labels. Qed.

Lemma slots_conserved_reachable s : reachable s → slots_conserved s.
Proof.
  induction 1 as [labels0|s s' Hr [IH1 IH2] Hs].
  - split; simpl.
    + unfold owners; simpl. by rewrite foldl_push_seq, !app_nil_r.
    + apply length_replicate.
  - unfold slots_conserved, owners in *.
    step_cases s Hs.
    all: simpl in *; unfold push.
    all: rewrite ?length_warmup_pool, ?length_insert, ?length_alter,
      ?cslot_after_reshape, ?cslot_after_copy.
    all: split; [|done].
    all: rewrite <- IH1; solve_Permutation.
Qed.

(** ** The calls of set-up *)

Lemma warm_events_setup ev labels n :
  (∀ i m, is_setup_event (ev i m) = true) →
  Forall (λ e, is_setup_event e = true) (warm_events ev labels n).
Proof.
  intros Hev. unfold warm_events. generalize (seq 0 n). intros l.
  induction l as [|i l IH]; cbn [flat_map]; [constructor|].
  apply Forall_app. split; [|done].
  apply Forall_forall. intros e He.
  apply list_elem_of_fmap in He as (m & -> & _). apply Hev.
Qed.

Lemma warmup_events_setup labels :
  Forall (λ e, is_setup_event e = true)
         (warmup_events labels ++ [EvStartInternalThread]).
Proof.
  unfold warmup_events. rewrite !Forall_app. repeat split.
  - repeat constructor.
  - by apply warm_events_setup.
  - destruct gpu_mode; [by apply warm_events_setup|constructor].
  - repeat constructor.
  - repeat constructor.
Qed.

Lemma setup_events_silent es :
  Forall (λ e, is_setup_event e = true) es →
  produced es = [] ∧ delivered es = [] ∧ worker_trace es = [].
Proof.
  induction 1 as [|e es He _ (IH1 & IH2 & IH3)]; [done|].
  unfold produced, delivered, worker_trace in *.
  destruct e; simplify_eq/=; by rewrite ?IH1, ?IH2, ?IH3.
Qed.

Lemma not_started_reachable s : reachable s → not_started s.
Proof.
  induction 1 as [labels0|s s' Hr IH Hs]; [done|].
  unfold not_started in *. step_cases s Hs; try done.
  all: intros Hw; destruct (IH Hw) as (? & ? & ? & ? & Ht);
    repeat split; try done; try congruence.
  all: try (rewrite worker_trace_app, Ht; done).
Qed.

(** ** Delivery in the order of production *)

Lemma owners_NoDup s : slots_conserved s → NoDup (owners s).
Proof. intros [Hp _]. rewrite Hp. apply NoDup_seq. Qed.

Lemma cpre_cslot x pc : x ∈ cpre pc → x ∈ cslot pc.
Proof. destruct pc as [| |[] ?|[] ?|]; simpl; auto; by intros ?%elem_of_nil. Qed.

Lemma content_insert_ne (p : list Batch) b x batch :
  x ≠ b → content (<[b := batch]> p) x = content p x.
Proof. intros Hne. unfold content. by rewrite list_lookup_insert_ne. Qed.

Lemma content_insert_eq (p : list Batch) b batch :
  b < length p → content (<[b := batch]> p) b = values (data_ batch).
Proof. intros Hb. unfold content. by rewrite list_lookup_insert_eq. Qed.

Lemma map_content_insert (p : list Batch) b batch l :
  b ∉ l → map (content (<[b := batch]> p)) l = map (content p) l.
Proof.
  intros Hb. apply map_ext_in. intros x Hx. apply content_insert_ne.
  intros ->. apply Hb. by apply list_elem_of_In.
Qed.

Lemma values_data_staged m batch :
  values (data_ (upd m staged batch)) = values (data_ batch).
Proof. by destruct batch, m. Qed.

Lemma content_staged (p : list Batch) b m x :
  content (alter (upd m staged) b p) x = content p x.
Proof.
  unfold content. destruct (decide (b = x)) as [->|Hne].
  - rewrite list_lookup_alter_eq. destruct (p !! x); simpl; [|done].
    apply values_data_staged.
  - by rewrite list_lookup_alter_ne.
Qed.

Lemma content_present (p : list Batch) b batch :
  p !! b = Some batch → content p b = values (data_ batch).
Proof. unfold content. by intros ->. Qed.

Lemma held_by_worker (fr fu cs : list nat) b :
  NoDup (fr ++ fu ++ [b] ++ cs) → (b ∉ fr) ∧ (b ∉ fu) ∧ (b ∉ cs).
Proof.
  intros Hnd.
  apply NoDup_app in Hnd as (_ & Hfr & Hnd).
  apply NoDup_app in Hnd as (_ & Hfu & Hnd).
  apply NoDup_app in Hnd as (_ & Hb & _).
  repeat split.
  - intros Hin. apply (Hfr _ Hin). rewrite !elem_of_app, list_elem_of_singleton. auto.
  - intros Hin. apply (Hfu _ Hin). rewrite !elem_of_app, list_elem_of_singleton. auto.
  - apply Hb. by apply list_elem_of_singleton.
Qed.

Lemma not_in_flight_of_worker (fr fu : list nat) c b :
  NoDup (fr ++ fu ++ [b] ++ cslot c) → b ∉ cpre c ++ fu.
Proof.
  intros (_ & Hfu & Hc)%held_by_worker. rewrite elem_of_app.
  intros [Hin%cpre_cslot|Hin]; auto.
Qed.

Lemma in_order_reachable s : reachable s → in_order s.
Proof.
  induction 1 as [labels0|s s' Hr IH Hs]; [done|].
  pose proof (slots_conserved_reachable s Hr) as Hc.
  pose proof (owners_NoDup s Hc) as Hnd.
  pose proof (not_started_reachable s Hr) as Hns.
  destruct Hc as [_ Hlen]. clear Hr.
  unfold in_order, in_flight, owners, not_started in *.
  step_cases s Hs.
  { (* set-up: nothing is in flight *)
    rewrite produced_app, delivered_app.
    change (EvTransformerReset :: _)
      with (warmup_events (negotiated top_) ++ [EvStartInternalThread]).
    destruct (setup_events_silent _ (warmup_events_setup (negotiated top_)))
      as (-> & -> & _).
    destruct Hns as (-> & _); [done|].
    simpl in *. by rewrite !app_nil_r in *. }
  all: rewrite ?produced_app, ?delivered_app.
  all: cbn [produced delivered omap cpre wpost wslot cslot app list_omap] in *.
  all: rewrite ?app_nil_r in *.
  all: try exact IH.
  - (* load_batch is entered *)
    rewrite map_content_insert; [done|].
    by eapply not_in_flight_of_worker.
  - (* load_batch returns, device path *)
    rewrite app_assoc, map_app, map_content_insert
      by (by eapply not_in_flight_of_worker).
    simpl. rewrite content_insert_eq by (by eapply lookup_lt_Some).
    by rewrite IH, app_assoc.
  - (* load_batch returns, host path *)
    rewrite app_assoc, map_app, map_content_insert
      by (by eapply not_in_flight_of_worker).
    simpl. rewrite content_insert_eq by (by eapply lookup_lt_Some).
    by rewrite IH, app_assoc.
  - (* the completion of a copy to the device *)
    rewrite IH. f_equal. apply map_ext. intros x. by rewrite content_staged.
  - (* ReshapeLike *)
    destruct m; exact IH.
  - (* caffe_copy *)
    destruct m; cbn [cpre after_copy app] in *; rewrite ?app_nil_r; try exact IH.
    rewrite IH. simpl. rewrite (content_present _ _ _ E), <- app_assoc.
    by destruct ol.
Qed.

(** ** The account of the slots *)

Lemma refs_app b l1 l2 : refs b (l1 ++ l2) = refs b l1 + refs b l2.
Proof. apply count_occ_app. Qed.




(** ** Device staging *)

Lemma staged_ok_insert_ne (p : list Batch) b x batch :
  x ≠ b → staged_ok p x → staged_ok (<[b := batch]> p) x.
Proof.
  intros Hne (bx & Hx & Hd). exists bx. by rewrite list_lookup_insert_ne.
Qed.

Lemma staged_ok_alter (p : list Batch) b x :
  staged_ok p x → staged_ok (alter (upd m_data staged) b p) x.
Proof.
  intros (bx & Hx & Hd). destruct (decide (b = x)) as [->|Hne].
  - exists (upd m_data staged bx). rewrite list_lookup_alter_eq, Hx.
    split; [done|]. by destruct bx.
  - exists bx. by rewrite list_lookup_alter_ne.
Qed.

Lemma staged_ok_fresh (p : list Batch) b :
  b < length p → staged_ok (alter (upd m_data staged) b p) b.
Proof.
  intros Hb. destruct (lookup_lt_is_Some_2 p b Hb) as [bx Hx].
  exists (upd m_data staged bx). rewrite list_lookup_alter_eq, Hx.
  split; [done|]. by destruct bx.
Qed.

Lemma owner_in_pool s b :
  slots_conserved s → b ∈ owners s → b < length (prefetch_ s).
Proof.
  intros [Hp ->] Hb. rewrite Hp in Hb.
  apply list_elem_of_lookup in Hb as [i Hi]. apply lookup_seq in Hi. lia.
Qed.

(** Membership in a list of slots that follows from [H], by the shape of
    the lists. *)
Ltac membership H :=
  revert H;
  repeat first [rewrite elem_of_app | rewrite elem_of_cons | rewrite elem_of_nil];
  tauto.

Lemma staging_inv_reachable s : reachable s → staging_inv gpu_mode s.
Proof.
  induction 1 as [labels0|s s' Hr IH Hs].
  { split; [|done]. intros _ b Hb. simpl in Hb. by apply elem_of_nil in Hb. }
  pose proof (slots_conserved_reachable s Hr) as Hc.
  pose proof (owners_NoDup s Hc) as Hnd.
  pose proof (λ b, owner_in_pool s b Hc) as Hpool.
  pose proof (not_started_reachable s Hr) as Hns.
  clear Hc Hr. destruct IH as [IH1 IH2].
  unfold staging_inv, published, owners, not_started, pending_copies in *.
  step_cases s Hs.
  all: cbn [wslot cslot synced_slot app pending_of] in *.
  all: rewrite ?cslot_after_reshape, ?cslot_after_copy; unfold push.
  all: try (split;
    [ intros Hg x Hx; apply (IH1 Hg); membership Hx
    | first [exact IH2 | done] ]).
  - (* set-up: nothing is published *)
    destruct Hns as (-> & _); [done|]. split; [|done].
    intros _ x Hx. by apply elem_of_nil in Hx.
  - (* load_batch is entered *)
    apply held_by_worker in Hnd as (_ & Hfu & Hcs).
    split; [|done]. intros Hg x Hx. apply staged_ok_insert_ne.
    + intros ->. revert Hfu Hcs. membership Hx.
    + apply (IH1 Hg). membership Hx.
  - (* load_batch returns, device path *)
    apply held_by_worker in Hnd as (_ & Hfu & Hcs).
    split; [|done]. intros Hg x Hx. apply staged_ok_insert_ne.
    + intros ->. revert Hfu Hcs. membership Hx.
    + apply (IH1 Hg). membership Hx.
  - (* load_batch returns, host path *)
    by split.
  - (* async_gpu_push *)
    split; [|left; by rewrite IH2].
    intros Hg x Hx. apply (IH1 Hg). membership Hx.
  - (* cudaStreamSynchronize returns *)
    split; [|done]. intros Hg x Hx.
    destruct IH2 as [[=]|[_ Hb]].
    apply elem_of_app in Hx as [Hx|Hx].
    + apply (IH1 Hg). membership Hx.
    + apply list_elem_of_singleton in Hx as ->. exact Hb.
  - (* the device completes the copy *)
    destruct w; try discriminate IH2.
    destruct IH2 as [[= -> -> ->]|[[=] _]].
    split.
    + intros Hg x Hx. apply staged_ok_alter, (IH1 Hg). exact Hx.
    + right. split; [done|]. apply staged_ok_fresh, Hpool.
      cbn [wslot]. rewrite !elem_of_app, list_elem_of_singleton. tauto.
Qed.






(** ** Only the primary array is staged *)

Lemma only_primary_staged_app tr es :
  only_primary_staged tr →
  (∀ b m, EvAsyncGpuPush b m ∈ es → m = m_data) →
  only_primary_staged (tr ++ es).
Proof.
  intros Htr Hes b m [Hin|Hin]%elem_of_app; eauto.
Qed.

Lemma setup_events_no_push es b m :
  Forall (λ e, is_setup_event e = true) es → EvAsyncGpuPush b m ∉ es.
Proof.
  intros Hes Hin. rewrite Forall_forall in Hes. by apply Hes in Hin.
Qed.

Lemma only_primary_staged_reachable s :
  reachable s → only_primary_staged (trace s).
Proof.
  induction 1 as [labels0|s s' Hr IH Hs].
  { intros b m Hin. by apply elem_of_nil in Hin. }
  clear Hr. step_cases s Hs; try exact IH.
  { change (EvTransformerReset :: _)
      with (warmup_events (negotiated top_) ++ [EvStartInternalThread]).
    apply only_primary_staged_app; [done|]. intros b m Hin.
    by apply (setup_events_no_push _ _ _ (warmup_events_setup _)) in Hin. }
  all: apply only_primary_staged_app; [done|].
  all: intros x m' Hin; apply list_elem_of_singleton in Hin; by simplify_eq.
Qed.

Lemma lookup_alter_other_member (p : list Batch) b i m m' f :
  m' ≠ m →
  get m' <$> (alter (upd m f) b p !! i) = get m' <$> (p !! i).
Proof.
  intros Hne. destruct (decide (b = i)) as [->|Hbi].
  - rewrite list_lookup_alter_eq. destruct (p !! i) as [batch|]; [|done].
    simpl. f_equal. by destruct batch, m, m'.
  - by rewrite list_lookup_alter_ne.
Qed.

(** C10. During device staging only the primary array of a slot is
    transferred: every copy the worker has asked for and every copy in
    flight is one of [data_], the transitions of the staging leave the nine
    secondary arrays of every slot as they are, and what [Forward_cpu] copies
    into a destination are the values the array has on the host. *)
Theorem C10_only_primary_array_staged s :
  reachable s →
  only_primary_staged (trace s) ∧
  (∀ b m, (b, m) ∈ pending_copies s → m = m_data) ∧
  (∀ a s', staging_step s a → perform a s = Some s' →
     ∀ i m, m ≠ m_data →
       get m <$> (prefetch_ s' !! i) = get m <$> (prefetch_ s !! i)) ∧
  (∀ m b batch dst s',
     cpc s = CCopy m b → prefetch_ s !! b = Some batch →
     top s !! top_index m = Some dst → Forward_cpu_step s = Some s' →
     host <$> (top s' !! top_index m) =
     Some (caffe_copy (count (get m batch)) (host (get m batch)) (host dst))).
Proof.
  intros Hr.
  pose proof (staging_inv_reachable s Hr) as [_ Hp].
  assert (Hpend : ∀ b m, (b, m) ∈ pending_copies s → m = m_data).
  { intros b m Hin. destruct (wpc s);
      try (rewrite Hp in Hin; by apply elem_of_nil in Hin).
    destruct Hp as [Hp|[Hp _]]; rewrite Hp in Hin.
    - by apply list_elem_of_singleton in Hin as [= -> ->].
    - by apply elem_of_nil in Hin. }
  split; [by apply only_primary_staged_reachable|].
  split; [exact Hpend|]. split.
  - intros a s' [-> | [-> [b Hb]]] Hs i m Hm.
    + simpl in Hs. unfold device_step in Hs. unfold pending_copies in Hpend.
      destruct (stream s) as [|[|[b m'] pending]|]; try done.
      injection Hs as <-. cbn [prefetch_ set_prefetch].
      assert (m' = m_data) as -> by (apply (Hpend b); simpl; left).
      by apply lookup_alter_other_member.
    + simpl in Hs. unfold caffe.InternalThreadEntry_step in Hs.
      destruct Hb as [Hb|Hb]; rewrite Hb in Hs;
        destruct (stream s) as [|[|? ?]|]; try done;
        by injection Hs as <-.
  - intros m b batch dst s' Hc Hb Hd Hs.
    unfold Forward_cpu_step in Hs. rewrite Hc, Hb, Hd in Hs.
    injection Hs as <-. cbn [top set_top log].
    rewrite list_lookup_insert_eq by (by eapply lookup_lt_Some). done.
Qed.

(** ** Exclusive access to a slot *)

(** C3. No concurrent mutation: in every reachable state the slot the worker
    holds is not the slot the consumer holds, no transition of the worker or
    of the device changes the slot the consumer holds, and every primary
    array delivered to the consumer is one a completed call of [load_batch]
    produced. *)
Theorem C3_no_concurrent_mutation s :
  reachable s →
  (∀ b, b ∈ wslot (wpc s) → b ∉ cslot (cpc s)) ∧
  (∀ b a s', b ∈ cslot (cpc s) → a = AWorker ∨ a = ADevice →
     perform a s = Some s' → prefetch_ s' !! b = prefetch_ s !! b) ∧
  (∀ v, v ∈ delivered (trace s) → v ∈ produced (trace s)).
Proof.
  intros Hr.
  pose proof (slots_conserved_reachable s Hr) as Hc.
  pose proof (owners_NoDup s Hc) as Hnd.
  pose proof (staging_inv_reachable s Hr) as [_ Hp].
  pose proof (in_order_reachable s Hr) as Hord.
  assert (Hex : ∀ b, b ∈ wslot (wpc s) → b ∉ cslot (cpc s)).
  { intros b Hw Hcs. unfold owners in Hnd.
    apply NoDup_app in Hnd as (_ & _ & Hnd).
    apply NoDup_app in Hnd as (_ & _ & Hnd).
    apply NoDup_app in Hnd as (_ & Hnd & _). by apply (Hnd b). }
  split; [exact Hex|]. split.
  - intros b a s' Hb [-> | ->] Hs.
    + simpl in Hs. unfold caffe.InternalThreadEntry_step in Hs.
      destruct (wpc s) eqn:Hw; simplify_option_eq; try done;
        repeat case_match; simplify_eq; try done;
        cbn [prefetch_ log set_prefetch set_wpc set_free set_full set_stream
             set_loads];
        try reflexivity.
      all: apply list_lookup_insert_ne; intros Heq;
        apply (Hex b); [|done]; rewrite <- Heq; by left.
    + simpl in Hs. unfold device_step in Hs. unfold pending_copies in Hp.
      destruct (stream s) as [|[|[b' m'] pending]|] eqn:Hst; try done.
      injection Hs as <-. cbn [prefetch_ set_prefetch].
      apply list_lookup_alter_ne. intros Heq.
      destruct (wpc s) eqn:Hw; cbn [pending_of] in Hp; try done.
      destruct Hp as [[= Hb' _ _]|[[=] _]].
      apply (Hex b); [|done]. rewrite <- Heq, Hb'. by left.
  - intros v Hv. rewrite Hord. apply elem_of_app. by left.
Qed.

(** ** Ordering *)

Section Stamped.

(** A loader that stamps the primary array of its [k]-th batch with
    [stamp k]. *)
Variable stamp : nat → list Z.
Hypothesis load_batch_stamps :
  ∀ k batch, values (data_ (load_batch_end k batch)) = stamp k.



End Stamped.

(** ** The negotiation of the labels *)

(** C6. [output_labels_] is decided by [BaseDataLayer::LayerSetUp] from the
    number of destinations: it is false exactly when [top] has one blob and
    true otherwise; the rest of set-up keeps that value and no other
    transition of the layer changes it. *)
Theorem C6_output_labels_negotiation top_ s :
  (output_labels_ (BaseDataLayer_LayerSetUp top_ s) = false ↔ length top_ = 1) ∧
  (output_labels_ (BaseDataLayer_LayerSetUp top_ s) = true ↔ length top_ ≠ 1) ∧
  (∀ s', LayerSetUp top_ s = Some s' →
     output_labels_ s' = output_labels_ (BaseDataLayer_LayerSetUp top_ s)) ∧
  (∀ a s', (∀ t, a ≠ ASetUp t) → perform a s = Some s' →
     output_labels_ s' = output_labels_ s).
Proof.
  assert (Hbase : output_labels_ (BaseDataLayer_LayerSetUp top_ s)
                  = negotiated top_).
  { unfold caffe.BaseDataLayer_LayerSetUp, negotiated.
    destruct s. by case_decide. }
  rewrite Hbase. unfold negotiated. repeat split.
  - by case_decide.
  - intros ->. by case_decide.
  - by case_decide.
  - intros Hne. by case_decide.
  - intros s' Hs. rewrite LayerSetUp_eq in Hs.
    destruct (wpc s); try done. by injection Hs as <-.
  - intros a s' Hne Hs. clear Hbase.
    perform_cases s a Hs; try reflexivity. by destruct (Hne top_0).
Qed.

(** ** Cancellation of the worker *)

(** C8. Expected cancellation: a worker blocked in the pop of the empty
    free queue has no transition until the interruption is requested; then
    the interruption is caught, the worker leaves its loop, destroys its
    stream when there is one and the thread function returns, the queues and
    the slots being left as they were. *)
Theorem C8_interruption_while_blocked s :
  wpc s = WPop → prefetch_free_ s = [] →
  (interruption_requested s = false → InternalThreadEntry_step s = None) ∧
  ∃ s1 s2,
    InternalThreadEntry_step (request_interruption s) = Some s1 ∧
    wpc s1 = WCleanup ∧
    InternalThreadEntry_step s1 = Some s2 ∧
    wpc s2 = WDone ∧
    InternalThreadEntry_step s2 = None ∧
    trace s2 = trace s ++ [EvInterrupted]
                       ++ (if gpu_mode then [EvStreamDestroy] else []) ∧
    stream s2 = (if gpu_mode then StreamDestroyed else stream s) ∧
    prefetch_free_ s2 = [] ∧
    prefetch_full_ s2 = prefetch_full_ s ∧
    prefetch_ s2 = prefetch_ s.
Proof.
  intros Hw Hf. destruct s as [p fr fu ol tp w c st ir ld tr].
  simpl in Hw, Hf. subst w fr. split.
  - simpl. intros ->. reflexivity.
  - unfold caffe.InternalThreadEntry_step, request_interruption.
    destruct gpu_mode; simpl; eexists _, _;
      (split; [reflexivity|]); (split; [reflexivity|]);
      (split; [reflexivity|]); simpl;
      repeat split; by rewrite <- ?app_assoc, ?app_nil_r.
Qed.

(** ** One call of Forward_cpu *)

Lemma received_shape dst src : shape_ (received dst src) = shape_ src.
Proof. reflexivity. Qed.

Lemma received_host dst src : host (received dst src) = values src.
Proof.
  unfold received, copy_into, ReshapeLike, caffe_copy, values, cpu_data. simpl.
  rewrite drop_ge, app_nil_r; [done|]. by rewrite length_resize.
Qed.

Lemma received_values dst src : values (received dst src) = values src.
Proof.
  unfold values at 1, cpu_data. rewrite received_host.
  change (count (received dst src)) with (count src).
  unfold values. apply take_idemp.
Qed.

Lemma Forward_cpu_run_step fuel s s' :
  Forward_cpu_step s = Some s' → cpc s' ≠ CIdle →
  Forward_cpu_run (S fuel) s = Forward_cpu_run fuel s'.
Proof. intros Hs Hc. simpl. rewrite Hs. simpl. by destruct (cpc s'). Qed.

Lemma Forward_cpu_run_last fuel s s' :
  Forward_cpu_step s = Some s' → cpc s' = CIdle →
  Forward_cpu_run (S fuel) s = Some s'.
Proof. intros Hs Hc. simpl. rewrite Hs. simpl. by rewrite Hc. Qed.

Lemma Forward_cpu_step_pop s b q :
  cpc s = CPop → prefetch_full_ s = b :: q →
  Forward_cpu_step s =
  Some (log [EvPopFull diagnostic b]
         (set_full q (set_cpc (CReshape m_data b) s))).
Proof. intros Hc Hf. unfold Forward_cpu_step. by rewrite Hc, Hf. Qed.

Lemma Forward_cpu_step_reshape s m b batch dst :
  cpc s = CReshape m b → prefetch_ s !! b = Some batch →
  top s !! top_index m = Some dst →
  Forward_cpu_step s =
  Some (log [EvReshapeLike (top_index m) m]
         (set_top (<[top_index m := ReshapeLike dst (get m batch)]> (top s))
           (set_cpc (after_reshape m b) s))).
Proof.
  intros Hc Hb Hd. unfold Forward_cpu_step. rewrite Hc, Hb. simpl.
  by rewrite Hd.
Qed.

Lemma Forward_cpu_step_copy s m b batch dst :
  cpc s = CCopy m b → prefetch_ s !! b = Some batch →
  top s !! top_index m = Some dst →
  Forward_cpu_step s =
  Some (log [EvCopy (top_index m) m (values (get m batch))]
         (set_top (<[top_index m := copy_into (get m batch) dst]> (top s))
           (set_cpc (after_copy (output_labels_ s) m b) s))).
Proof.
  intros Hc Hb Hd. unfold Forward_cpu_step. rewrite Hc, Hb. simpl.
  by rewrite Hd.
Qed.

Lemma Forward_cpu_step_push s b :
  cpc s = CPush b →
  Forward_cpu_step s =
  Some (log [EvPushFree b]
         (set_free (push (prefetch_free_ s) b) (set_cpc CIdle s))).
Proof. intros Hc. unfold Forward_cpu_step. by rewrite Hc. Qed.

(** One statement of [Forward_cpu] that is not its last. *)
Ltac forward_statement Hb :=
  erewrite Forward_cpu_run_step;
  [ | first [ by eapply Forward_cpu_step_pop
            | eapply Forward_cpu_step_reshape; [reflexivity|exact Hb|reflexivity]
            | eapply Forward_cpu_step_copy; [reflexivity|exact Hb|reflexivity] ]
    | discriminate ];
  setters;
  cbn [insert list_insert top_index after_reshape after_copy].

Lemma Forward_cpu_labels fr tp w st ir ld tr p b q batch
    t0 t1 t2 t3 t4 t5 t6 t7 t8 t9 rest :
  p !! b = Some batch →
  Forward_cpu (t0 :: t1 :: t2 :: t3 :: t4 :: t5 :: t6 :: t7 :: t8 :: t9 :: rest)
    (mkPipeline p fr (b :: q) true tp w CIdle st ir ld tr) =
  Some (mkPipeline p (fr ++ [b]) q true
          (received t0 (data_ batch) :: received t1 (label_ batch)
           :: received t2 (label1_ batch) :: received t3 (label2_ batch)
           :: received t4 (label3_ batch) :: received t5 (label4_ batch)
           :: received t6 (label5_ batch) :: received t7 (label6_ batch)
           :: received t8 (imageindex_ batch)
           :: received t9 (windowindex_ batch) :: rest)
          w CIdle st ir ld
          (tr ++ [EvPopFull diagnostic b] ++ forward_events true batch
              ++ [EvPushFree b])).
Proof.
  intros Hb. unfold Forward_cpu, Forward_cpu_call.
  cbn [cpc mbind option_bind].
  do 21 forward_statement Hb.
  erewrite Forward_cpu_run_last;
    [ | by eapply Forward_cpu_step_push | reflexivity ].
  setters. unfold push, forward_events. simpl.
  by rewrite <- !app_assoc.
Qed.

Lemma Forward_cpu_no_labels fr tp w st ir ld tr p b q batch t0 rest :
  p !! b = Some batch →
  Forward_cpu (t0 :: rest)
    (mkPipeline p fr (b :: q) false tp w CIdle st ir ld tr) =
  Some (mkPipeline p (fr ++ [b]) q false
          (received t0 (data_ batch) :: rest)
          w CIdle st ir ld
          (tr ++ [EvPopFull diagnostic b] ++ forward_events false batch
              ++ [EvPushFree b])).
Proof.
  intros Hb. unfold Forward_cpu, Forward_cpu_call.
  cbn [cpc mbind option_bind].
  do 3 forward_statement Hb.
  erewrite Forward_cpu_run_last;
    [ | by eapply Forward_cpu_step_push | reflexivity ].
  setters. unfold push, forward_events. simpl.
  by rewrite <- !app_assoc.
Qed.

(** The transitions of the worker, of the device and the request of an
    interruption leave alone what a call of [Forward_cpu] in progress works
    on: the destinations, its program counter, [output_labels_] and the slot
    it holds.  So the statements of a call have the effect they have without
    interference. *)
Lemma Forward_cpu_undisturbed s a s' :
  reachable s → a = AWorker ∨ a = ADevice ∨ a = AInterrupt →
  perform a s = Some s' →
  top s' = top s ∧ cpc s' = cpc s ∧ output_labels_ s' = output_labels_ s ∧
  ∀ b, b ∈ cslot (cpc s) → prefetch_ s' !! b = prefetch_ s !! b.
Proof.
  intros Hr Ha Hs.
  pose proof (slots_conserved_reachable s Hr) as Hc.
  pose proof (owners_NoDup s Hc) as Hnd.
  pose proof (staging_inv_reachable s Hr) as [_ Hp].
  clear Hr Hc. unfold owners, pending_copies in *.
  perform_cases s a Hs; try (by destruct Ha as [?|[?|?]]).
  all: cbn [wslot cslot pending_of] in *.
  all: repeat split; try done.
  - (* load_batch is entered *)
    intros x Hx. apply list_lookup_insert_ne. intros ->.
    apply held_by_worker in Hnd as (_ & _ & Hcs). done.
  - (* load_batch returns, device path *)
    intros x Hx. apply list_lookup_insert_ne. intros ->.
    apply held_by_worker in Hnd as (_ & _ & Hcs). done.
  - (* load_batch returns, host path *)
    intros x Hx. apply list_lookup_insert_ne. intros ->.
    apply held_by_worker in Hnd as (_ & _ & Hcs). done.
  - (* the device completes a copy *)
    intros x Hx. apply list_lookup_alter_ne. intros ->.
    destruct w; try discriminate Hp.
    destruct Hp as [[= -> _ _]|[[=] _]].
    apply held_by_worker in Hnd as (_ & _ & Hcs). done.
Qed.

(** C4. One call of [Forward_cpu] that has a destination for every array it
    copies.  While the full queue is empty the call waits in its pop.
    Otherwise it pops the head [b] of the full queue under the diagnostic
    label, reshapes [top[0]] like [data_] and copies [data_] into it, then,
    when labels are enabled, reshapes [top[1..9]] like the nine secondary
    arrays and copies these in the same fixed order, and at last pushes [b]
    onto the free queue.  Each destination it wrote has the shape and the
    values of its array; the slots are left as they were. *)
Theorem C4_Forward_cpu s top_ :
  cpc s = CIdle →
  (if output_labels_ s then 10 ≤ length top_ else 1 ≤ length top_) →
  match prefetch_full_ s with
  | [] =>
      ∃ s0, Forward_cpu_call top_ s = Some s0 ∧ cpc s0 = CPop ∧
            Forward_cpu_step s0 = None
  | b :: q =>
      ∀ batch, prefetch_ s !! b = Some batch →
      ∃ s', Forward_cpu top_ s = Some s' ∧
        cpc s' = CIdle ∧
        prefetch_full_ s' = q ∧
        prefetch_free_ s' = prefetch_free_ s ++ [b] ∧
        prefetch_ s' = prefetch_ s ∧
        trace s' = trace s ++ [EvPopFull diagnostic b]
                           ++ forward_events (output_labels_ s) batch
                           ++ [EvPushFree b] ∧
        ∀ m, m = m_data ∨ output_labels_ s = true →
          ∃ dst dst',
            top_ !! top_index m = Some dst ∧
            top s' !! top_index m = Some dst' ∧
            dst' = received dst (get m batch) ∧
            shape_ dst' = shape_ (get m batch) ∧
            host dst' = values (get m batch)
  end.
Proof.
  intros Hc Hlen. destruct s as [p fr fu ol tp w c st ir ld tr].
  simpl in Hc, Hlen. subst c.
  cbn [output_labels_ trace prefetch_free_ prefetch_full_ prefetch_].
  destruct fu as [|b q].
  { eexists. by repeat split. }
  intros batch Hb. destruct ol.
  - destruct top_ as [|t0 [|t1 [|t2 [|t3 [|t4 [|t5 [|t6 [|t7 [|t8 [|t9 rest]]]]]]]]]];
      simpl in Hlen; try lia.
    rewrite (Forward_cpu_labels _ _ _ _ _ _ _ _ _ _ _ _ _ _ _ _ _ _ _ _ _ _ Hb).
    eexists. split; [reflexivity|]. repeat split.
    intros m _. destruct m; eexists _, _;
      (split; [reflexivity|]); (split; [reflexivity|]);
      (split; [reflexivity|]); (split; [reflexivity|]); apply received_host.
  - destruct top_ as [|t0 rest]; simpl in Hlen; try lia.
    rewrite (Forward_cpu_no_labels _ _ _ _ _ _ _ _ _ _ _ _ _ Hb).
    eexists. split; [reflexivity|]. repeat split.
    intros m [->|[=]]. eexists _, _.
    (split; [reflexivity|]); (split; [reflexivity|]);
      (split; [reflexivity|]); (split; [reflexivity|]); apply received_host.
Qed.

(** ** Labels disabled *)

Lemma setup_events_primary es :
  Forall (λ e, is_setup_event e = true) es →
  Forall (λ e, secondary_access e = false) es.
Proof. intros Hes. eapply Forall_impl; [done|]. by intros []. Qed.

Lemma quiet_before_start_reachable s : reachable s → quiet_before_start s.
Proof.
  induction 1 as [labels0|s s' Hr IH Hs]; [by constructor|].
  pose proof (not_started_reachable s Hr) as Hns. clear Hr.
  unfold quiet_before_start, not_started in *.
  step_cases s Hs; try done.
  all: intros Hw; destruct (Hns Hw) as (? & ? & _); try done.
  all: apply Forall_app; split; [by apply IH|by repeat constructor].
Qed.

Lemma labels_off_inv_reachable s : reachable s → labels_off_inv s.
Proof.
  induction 1 as [labels0|s s' Hr IH Hs].
  { intros _. by split; [constructor|]. }
  pose proof (quiet_before_start_reachable s Hr) as Hq. clear Hr.
  unfold labels_off_inv, quiet_before_start, primary_pc in *.
  step_cases s Hs.
  { intros _. split; [|done].
    change (EvTransformerReset :: _)
      with (warmup_events (negotiated top_) ++ [EvStartInternalThread]).
    apply Forall_app. split; [by apply Hq|].
    apply setup_events_primary, warmup_events_setup. }
  all: intros Hl; destruct (IH Hl) as [Htr Hpc]; subst.
  all: try (split; [|done]).
  all: try (apply Forall_app; split; [done|]; by repeat constructor).
  all: done.
Qed.

(** C5. Label toggling: in every reachable state with labels disabled no
    destination of a secondary array has been reshaped or copied into, and a
    call of [Forward_cpu] reshapes and copies [top[0]] only: its calls are
    the pop, the reshape and the copy of [data_] and the push, and every
    destination other than [top[0]] is left as the caller passed it. *)
Theorem C5_labels_disabled s :
  reachable s → output_labels_ s = false →
  Forall (λ e, secondary_access e = false) (trace s) ∧
  ∀ top_ b q batch,
    cpc s = CIdle → prefetch_full_ s = b :: q →
    prefetch_ s !! b = Some batch → 1 ≤ length top_ →
    ∃ s', Forward_cpu top_ s = Some s' ∧
      trace s' = trace s ++ [EvPopFull diagnostic b; EvReshapeLike 0 m_data;
                             EvCopy 0 m_data (values (data_ batch));
                             EvPushFree b] ∧
      (∀ i, i ≠ 0 → top s' !! i = top_ !! i) ∧
      length (top s') = length top_ ∧
      prefetch_ s' = prefetch_ s.
Proof.
  intros Hr Hl. split; [by apply labels_off_inv_reachable|]. clear Hr.
  intros top_ b q batch Hc Hf Hb Hlen.
  destruct s as [p fr fu ol tp w c st ir ld tr].
  simpl in Hc, Hl, Hf, Hb. subst c ol fu. cbn [trace prefetch_].
  destruct top_ as [|t0 rest]; simpl in Hlen; try lia.
  rewrite (Forward_cpu_no_labels _ _ _ _ _ _ _ _ _ _ _ _ _ Hb).
  eexists. split; [reflexivity|]. repeat split.
  intros [|i] Hi; [done|reflexivity].
Qed.

(** ** The warm-up of set-up *)

Lemma elem_of_warm_members m labels :
  m ∈ warm_members labels ↔ m = m_data ∨ labels = true.
Proof.
  unfold warm_members, secondary. destruct labels.
  - split; [auto|]. intros _. destruct m; repeat first [left | right].
  - rewrite list_elem_of_singleton. split; [auto|]. by intros [?|?].
Qed.

Lemma elem_of_warm_events ev labels n e :
  e ∈ warm_events ev labels n ↔
  ∃ i m, i < n ∧ m ∈ warm_members labels ∧ e = ev i m.
Proof.
  unfold warm_events. rewrite list_elem_of_In, in_flat_map. split.
  - intros (i & Hi & He). apply in_seq in Hi.
    apply in_map_iff in He as (m & <- & Hm).
    exists i, m. repeat split; [lia|]. by apply list_elem_of_In.
  - intros (i & m & Hi & Hm & ->). exists i. split.
    + apply in_seq. lia.
    + apply in_map. by apply list_elem_of_In.
Qed.

Lemma elem_of_warmup_events labels e :
  e ∈ warmup_events labels ↔
  e = EvTransformerReset ∨ e = EvInitRand ∨ e = EvDataLayerSetUp ∨
  e ∈ warm_events EvMutableCpuData labels PREFETCH_COUNT ∨
  (gpu_mode = true ∧ e ∈ warm_events EvMutableGpuData labels PREFETCH_COUNT).
Proof.
  unfold caffe.warmup_events.
  rewrite !elem_of_app, !elem_of_cons, !elem_of_nil.
  destruct gpu_mode; rewrite ?elem_of_nil; intuition congruence.
Qed.

Lemma lookup_warm_pool f labels n (p : list Batch) i :
  warm_pool f labels n p !! i =
  (if decide (i < n) then warm_batch f labels else id) <$> (p !! i).
Proof.
  unfold warm_pool. induction n as [|n IH].
  - simpl. by destruct (p !! i).
  - rewrite seq_S, foldl_app. simpl.
    destruct (decide (n = i)) as [->|Hne].
    + rewrite list_lookup_alter_eq, IH.
      rewrite decide_False by lia. rewrite decide_True by lia.
      by destruct (p !! i).
    + rewrite list_lookup_alter_ne, IH by done.
      destruct (decide (i < n)), (decide (i < S n)); try lia; done.
Qed.

Lemma warm_batch_cpu labels m batch :
  m = m_data ∨ labels = true →
  host_ready (get m (warm_batch mutable_cpu_data labels batch)) = true.
Proof.
  intros Hm. destruct batch, labels, m; try reflexivity;
    by destruct Hm.
Qed.

Lemma warm_batch_gpu labels m batch :
  m = m_data ∨ labels = true →
  device_ready (get m (warm_batch mutable_gpu_data labels batch)) = true.
Proof.
  intros Hm. destruct batch, labels, m; try reflexivity;
    by destruct Hm.
Qed.

Lemma warm_batch_gpu_host labels m batch :
  host_ready (get m (warm_batch mutable_gpu_data labels batch)) =
  host_ready (get m batch).
Proof. by destruct batch, labels, m. Qed.

(** C9. Set-up of a layer whose worker has not been started: the host
    storage of the primary array of each of the [PREFETCH_COUNT] slots, and of
    every secondary array when labels are enabled, is touched, and so is the
    device storage when device staging is enabled; all these calls come
    before [StartInternalThread], which is the last call of set-up. *)
Theorem C9_warmup_before_start top_ s :
  wpc s = WIdle →
  ∃ s', LayerSetUp top_ s = Some s' ∧
    wpc s' = WEntry ∧
    trace s' = trace s ++ warmup_events (output_labels_ s')
                       ++ [EvStartInternalThread] ∧
    (EvStartInternalThread ∉ warmup_events (output_labels_ s')) ∧
    ∀ i m, i < PREFETCH_COUNT → m = m_data ∨ output_labels_ s' = true →
      EvMutableCpuData i m ∈ warmup_events (output_labels_ s') ∧
      (gpu_mode = true →
       EvMutableGpuData i m ∈ warmup_events (output_labels_ s')) ∧
      ∀ batch, prefetch_ s' !! i = Some batch →
        host_ready (get m batch) = true ∧
        (gpu_mode = true → device_ready (get m batch) = true).
Proof.
  intros Hw. rewrite LayerSetUp_eq, Hw. eexists. split; [reflexivity|].
  cbn [wpc trace output_labels_ prefetch_].
  split; [done|]. split; [done|]. split.
  - rewrite elem_of_warmup_events, !elem_of_warm_events.
    intros [?|[?|[?|[(? & ? & ? & ? & ?)|[_ (? & ? & ? & ? & ?)]]]]]; done.
  - intros i m Hi Hm. split; [|split].
    + apply elem_of_warmup_events. do 3 right. left.
      apply elem_of_warm_events. exists i, m.
      by rewrite elem_of_warm_members.
    + intros Hg. apply elem_of_warmup_events. do 4 right. split; [done|].
      apply elem_of_warm_events. exists i, m.
      by rewrite elem_of_warm_members.
    + intros batch Hbatch. unfold caffe.warmup_pool in Hbatch.
      cbv zeta in Hbatch. split.
      * destruct gpu_mode;
          rewrite ?lookup_warm_pool, ?decide_True in Hbatch by done;
          destruct (imap (DataLayerSetUp top_) (prefetch_ s) !! i);
          simplify_eq/=;
          by rewrite ?warm_batch_gpu_host, warm_batch_cpu.
      * intros Hg. rewrite Hg in Hbatch.
        rewrite ?lookup_warm_pool, ?decide_True in Hbatch by done.
        destruct (imap (DataLayerSetUp top_) (prefetch_ s) !! i);
          simplify_eq/=.
        by rewrite warm_batch_gpu.
Qed.


(** * Further properties of the layer *)

(** ** Bounded buffering *)

Lemma produced_length_reachable s :
  reachable s → length (produced (trace s)) = loads s.
Proof.
  induction 1 as [labels0|s s' Hr IH Hs]; [done|].
  clear Hr. step_cases s Hs; try exact IH.
  { rewrite produced_app.
    change (EvTransformerReset :: _)
      with (warmup_events (negotiated top_) ++ [EvStartInternalThread]).
    destruct (setup_events_silent _ (warmup_events_setup (negotiated top_)))
      as (-> & _ & _).
    by rewrite app_nil_r. }
  all: rewrite produced_app, length_app, IH; simpl; lia.
Qed.

Lemma length_cpre pc : length (cpre pc) ≤ length (cslot pc).
Proof. destruct pc as [| |[] ?|[] ?|]; simpl; lia. Qed.

Lemma length_wpost pc : length (wpost pc) ≤ length (wslot pc).
Proof. destruct pc; simpl; lia. Qed.

(** X1.  The worker is never more than [PREFETCH_COUNT] batches ahead of the
    consumer: in every reachable state the number of completed calls of
    [load_batch] exceeds the number of primary arrays copied into [top[0]]
    by at most [PREFETCH_COUNT], and the full queue holds at most
    [PREFETCH_COUNT] slots. *)
Theorem X1_bounded_lead s :
  reachable s →
  loads s ≤ length (delivered (trace s)) + PREFETCH_COUNT ∧
  length (prefetch_full_ s) ≤ PREFETCH_COUNT.
Proof.
  intros Hr.
  pose proof (slots_conserved_reachable s Hr) as [Hp _].
  pose proof (in_order_reachable s Hr) as Hord.
  pose proof (produced_length_reachable s Hr) as Hlen.
  apply Permutation_length in Hp.
  unfold owners in Hp. rewrite !length_app, length_seq in Hp.
  apply (f_equal length) in Hord.
  unfold in_flight in Hord.
  rewrite Hlen, length_app, length_map, !length_app in Hord.
  pose proof (length_cpre (cpc s)). pose proof (length_wpost (wpc s)).
  lia.
Qed.

(** ** The two pops never block each other *)


(** ** The life of the stream *)

Lemma stream_inv_reachable s : reachable s → stream_inv gpu_mode s.
Proof.
  induction 1 as [labels0|s s' Hr IH Hs]; [done|].
  clear Hr. unfold stream_inv in *.
  step_cases s Hs; try done; try (by eexists).
  all: try (destruct gpu_mode; first [done | by eexists]).
  all: destruct w; try done; destruct gpu_mode; try done; by eexists.
Qed.


Lemma stream_bracket_reachable s : reachable s → stream_bracket gpu_mode s.
Proof.
  induction 1 as [labels0|s s' Hr IH Hs]; [by exists []|].
  clear Hr. destruct IH as (body & Hb & Heq). unfold stream_bracket in *.
  step_cases s Hs.
  { (* set-up *)
    rewrite worker_trace_app.
    change (EvTransformerReset :: _)
      with (warmup_events (negotiated top_) ++ [EvStartInternalThread]).
    destruct (setup_events_silent _ (warmup_events_setup (negotiated top_)))
      as (_ & _ & ->).
    exists []. by rewrite app_nil_r. }
  all: rewrite ?worker_trace_app; cbn [worker_trace List.filter is_worker_event].
  all: rewrite ?app_nil_r.
  all: cbn [trace wpc] in *.
  all: try (exists body; split; [done|]; exact Heq).
  all: try (exists []; split; [done|]; by rewrite Heq).
  all: try (exists body; split; [done|]; rewrite Heq; by rewrite <- ?app_assoc).
  all: try (match goal with
            | |- context [worker_trace _ ++ [?e]] => exists (body ++ [e])
            end; split;
    [ apply Forall_app; split; [done|by repeat constructor]
    | rewrite Heq; by rewrite <- ?app_assoc ]).
  all: exists body; split; [done|]; by rewrite Heq, ?app_nil_r.
Qed.


(** X3.  The stream of the worker lives from the entry of the thread function to
    its return: in every reachable state there is no stream before line 93
    has run, a live one while the worker is in its loop or at the clean-up,
    and a destroyed one after the return (in CPU mode there is none at any
    time); among the calls of the worker [cudaStreamCreate] is the first,
    [cudaStreamDestroy] the last, and neither is called in between; the
    stream never has more than one copy pending. *)
Theorem X3_stream_lifetime s :
  reachable s →
  stream_inv gpu_mode s ∧ stream_bracket gpu_mode s ∧
  length (pending_copies s) ≤ 1.
Proof.
  intros Hr. split; [by apply stream_inv_reachable|].
  split; [by apply stream_bracket_reachable|].
  pose proof (staging_inv_reachable s Hr) as [_ Hp].
  destruct (wpc s); try (rewrite Hp; simpl; lia).
  destruct Hp as [->|[-> _]]; simpl; lia.
Qed.

(** ** CPU mode *)

Lemma warmup_events_host labels :
  gpu_mode = false →
  Forall (λ e, is_device_call e = false)
         (warmup_events labels ++ [EvStartInternalThread]).
Proof.
  intros Hg. apply Forall_app. split; [|by repeat constructor].
  apply Forall_forall. intros e.
  rewrite elem_of_warmup_events, elem_of_warm_events.
  intros [->|[->|[->|[(i & m & _ & _ & ->)|[Ht _]]]]]; try done.
  congruence.
Qed.

Lemma host_only_reachable s : gpu_mode = false → reachable s → host_only s.
Proof.
  intros Hg. induction 1 as [labels0|s s' Hr IH Hs]; [by repeat constructor|].
  clear Hr. destruct IH as (IH1 & IH2 & IH3). unfold host_only in *.
  step_cases s Hs; try discriminate Hg.
  { change (EvTransformerReset :: _)
      with (warmup_events (negotiated top_) ++ [EvStartInternalThread]).
    repeat split; try done.
    apply Forall_app. split; [done|by apply warmup_events_host]. }
  all: cbn [trace stream wpc] in *; try discriminate IH2; try done.
  all: repeat split; try done.
  all: try (apply Forall_app; split; [done|by repeat constructor]).
  all: by destruct w.
Qed.

(** X4.  In CPU mode the layer never needs a device: in every reachable state
    no [mutable_gpu_data], [cudaStreamCreate], [async_gpu_push],
    [cudaStreamSynchronize] or [cudaStreamDestroy] has been called, there is
    no stream, the worker is not at line 103 or 104, and the device has
    nothing to do. *)
Theorem X4_cpu_mode_host_only s :
  gpu_mode = false → reachable s →
  Forall (λ e, is_device_call e = false) (trace s) ∧
  stream s = StreamNone ∧
  (∀ b, wpc s ≠ WStage b ∧ wpc s ≠ WSync b) ∧
  device_step s = None.
Proof.
  intros Hg Hr. destruct (host_only_reachable s Hg Hr) as (H1 & H2 & H3).
  repeat split; try done.
  - intros Hw. by rewrite Hw in H3.
  - intros Hw. by rewrite Hw in H3.
  - unfold device_step. by rewrite H2.
Qed.

(** ** Every published slot was loaded in the same pass *)

Lemma pushes_loaded_nil gpu : pushes_loaded gpu [].
Proof. intros pre post b Heq. by destruct pre. Qed.

Lemma pushes_loaded_snoc gpu wt e :
  pushes_loaded gpu wt →
  (∀ b, e = EvPushFull b → ∃ pre' vals, wt = pre' ++ pass_events gpu b vals) →
  pushes_loaded gpu (wt ++ [e]).
Proof.
  intros Hwt He pre post b Heq.
  destruct post as [|x post _] using rev_ind.
  - apply app_inj_tail in Heq as [-> ->]. by apply He.
  - rewrite app_comm_cons, app_assoc in Heq.
    apply app_inj_tail in Heq as [-> _]. by eapply Hwt.
Qed.

Lemma pass_inv_reachable s : reachable s → pass_inv gpu_mode s.
Proof.
  induction 1 as [labels0|s s' Hr IH Hs].
  { split; [|done]. apply pushes_loaded_nil. }
  clear Hr. destruct IH as [IH1 IH2].
  unfold pass_inv, pass_progress, pass_events in *.
  step_cases s Hs.
  { (* set-up *)
    rewrite worker_trace_app.
    change (EvTransformerReset :: _)
      with (warmup_events (negotiated top_) ++ [EvStartInternalThread]).
    destruct (setup_events_silent _ (warmup_events_setup (negotiated top_)))
      as (_ & _ & ->).
    by rewrite app_nil_r. }
  all: rewrite ?worker_trace_app; cbn [worker_trace List.filter is_worker_event].
  all: rewrite ?app_nil_r.
  all: cbn [trace wpc] in *.
  all: try (split; [exact IH1 | first [exact IH2 | done]]).
  all: try (split; [apply pushes_loaded_snoc; [exact IH1|done]|]).
  all: try done.
  - (* the pop *) by eexists.
  - (* load_batch is entered *)
    destruct IH2 as [pre ->]. exists pre. by rewrite <- app_assoc.
  - (* load_batch returns, device path *)
    split; [done|]. destruct IH2 as [pre ->].
    exists pre; eexists. by rewrite <- app_assoc.
  - (* load_batch returns, host path *)
    destruct IH2 as [pre ->].
    exists pre; eexists. by rewrite <- app_assoc.
  - (* async_gpu_push *)
    destruct IH2 as (Hg & pre & vals & ->). split; [done|].
    exists pre, vals. by rewrite <- app_assoc.
  - (* cudaStreamSynchronize returns *)
    destruct IH2 as (-> & pre & vals & ->).
    exists pre, vals. by rewrite <- app_assoc.
  - (* the push onto the full queue *)
    split; [|done]. apply pushes_loaded_snoc; [exact IH1|].
    intros b' [= <-]. exact IH2.
Qed.

(** X5.  Whatever the mode, a slot reaches the full queue only at the end of a
    pass of the loop that loaded it: among the calls of the worker every
    push onto the full queue comes right after the pop of that slot from the
    free queue, the call and the return of [load_batch] on it and, in GPU
    mode, the asynchronous copy of its primary array and the
    synchronization of the stream, in this order. *)
Theorem X5_publish_after_load s :
  reachable s → pushes_loaded gpu_mode (worker_trace (trace s)).
Proof. intros Hr. by apply pass_inv_reachable. Qed.


(** ** A call of Forward_cpu with too few destinations *)









Lemma full_slot_in_pool s b q :
  reachable s → prefetch_full_ s = b :: q → is_Some (prefetch_ s !! b).
Proof.
  intros Hr Hf. apply lookup_lt_is_Some.
  apply owner_in_pool; [by apply slots_conserved_reachable|].
  unfold owners. rewrite Hf, !elem_of_app, elem_of_cons. auto.
Qed.



(** ** When a call of Forward_cpu returns, and what it leaves alone *)




(** ** One pass of the loop of the worker *)

Abbreviation load_batch := (caffe.load_batch load_batch_begin load_batch_end).

Lemma alter_insert_eq {A} (f : A → A) (l : list A) i x :
  alter f i (<[i:=x]> l) = <[i:=f x]> l.
Proof. by rewrite !list_insert_alter, list_alter_alter_eq. Qed.

Lemma run_cons n gpu hook lb le a acts s s1 :
  caffe.perform n gpu hook lb le a s = Some s1 →
  caffe.run n gpu hook lb le (a :: acts) s = caffe.run n gpu hook lb le acts s1.
Proof. intros Hs. simpl. by rewrite Hs. Qed.

(** The transition of a schedule that is next, on a state given by its
    fields; [Hb] is the lookup of the slot of the worker. *)
Ltac schedule_statement Hb :=
  erewrite run_cons;
  [ | cbn [caffe.perform];
      unfold caffe.InternalThreadEntry_step, device_step, must_stop, try_pop,
        next_after_load;
      setters; cbn [app];
      rewrite ?list_lookup_insert_eq by (by apply lookup_lt_Some in Hb);
      rewrite ?Hb;
      cbn [mbind option_bind]; setters;
      rewrite ?list_insert_insert_eq, ?alter_insert_eq;
      reflexivity ].

Lemma run_pass p fu ol tp c st ld tr b q batch :
  p !! b = Some batch →
  (gpu_mode = true → st = StreamLive []) →
  run (pass gpu_mode)
      (mkPipeline p (b :: q) fu ol tp WLoop c st false ld tr) =
  Some (mkPipeline
          (<[b := (if gpu_mode then upd m_data staged else id)
                    (load_batch ld batch)]> p)
          q (fu ++ [b]) ol tp WLoop c st false (S ld)
          (tr ++ pass_events gpu_mode b (values (data_ (load_batch ld batch)))
              ++ [EvPushFull b])).
Proof.
  intros Hb Hst. unfold pass, pass_events, caffe.load_batch.
  destruct gpu_mode.
  - rewrite Hst by done. cbn [app].
    do 8 schedule_statement Hb.
    cbn [caffe.run]. unfold push. by rewrite <- !app_assoc.
  - cbn [app].
    do 5 schedule_statement Hb.
    cbn [caffe.run]. unfold push. by rewrite <- !app_assoc.
Qed.

(** X8.  One pass of the loop of the worker, without interference: from the
    test of line 98 with no interruption requested, a free slot [b] at the
    head of the free queue and, in GPU mode, an idle stream, the worker
    comes back to the test with [b] taken from the head of the free queue
    and put at the tail of the full queue, the slot holding what
    [load_batch] made of it (its primary array staged on the device in GPU
    mode), one more load counted, and the calls of the pass and the push
    logged; everything else is as it was. *)
Theorem X8_worker_pass s b q batch :
  wpc s = WLoop → interruption_requested s = false →
  prefetch_free_ s = b :: q → prefetch_ s !! b = Some batch →
  (gpu_mode = true → stream s = StreamLive []) →
  ∃ s', run (pass gpu_mode) s = Some s' ∧
    wpc s' = WLoop ∧
    prefetch_free_ s' = q ∧
    prefetch_full_ s' = prefetch_full_ s ++ [b] ∧
    prefetch_ s' =
      <[b := (if gpu_mode then upd m_data staged else id)
               (load_batch (loads s) batch)]> (prefetch_ s) ∧
    loads s' = S (loads s) ∧
    trace s' = trace s
                 ++ pass_events gpu_mode b
                      (values (data_ (load_batch (loads s) batch)))
                 ++ [EvPushFull b] ∧
    stream s' = stream s ∧ cpc s' = cpc s ∧ top s' = top s ∧
    output_labels_ s' = output_labels_ s ∧
    interruption_requested s' = false.
Proof.
  intros Hw Hi Hf Hb Hst. destruct s as [p fr fu ol tp w c st ir ld tr].
  cbn [wpc interruption_requested prefetch_free_ prefetch_ stream
       prefetch_full_ loads trace cpc top output_labels_] in *.
  subst w ir fr. eexists. split; [by apply run_pass|]. by repeat split.
Qed.

(** ** From load_batch to the destination *)

Lemma Forward_cpu_delivers s top_ b q batch :
  cpc s = CIdle → prefetch_full_ s = b :: q →
  prefetch_ s !! b = Some batch →
  (if output_labels_ s then 10 else 1) ≤ length top_ →
  ∃ s', Forward_cpu top_ s = Some s' ∧
    prefetch_free_ s' = prefetch_free_ s ++ [b] ∧
    prefetch_full_ s' = q ∧
    prefetch_ s' = prefetch_ s ∧
    trace s' = trace s ++ [EvPopFull diagnostic b]
                 ++ forward_events (output_labels_ s) batch
                 ++ [EvPushFree b] ∧
    ∀ m, m = m_data ∨ output_labels_ s = true →
      ∃ dst, top_ !! top_index m = Some dst ∧
             top s' !! top_index m = Some (received dst (get m batch)).
Proof.
  intros Hc Hf Hb Hlen. destruct s as [p fr fu ol tp w c st ir ld tr].
  cbn [cpc prefetch_full_ output_labels_ prefetch_ prefetch_free_ trace] in *.
  subst c fu. destruct ol.
  - destruct top_ as [|t0 [|t1 [|t2 [|t3 [|t4 [|t5 [|t6 [|t7 [|t8 [|t9 rest]]]]]]]]]];
      simpl in Hlen; try lia.
    rewrite (Forward_cpu_labels _ _ _ _ _ _ _ _ _ _ _ _ _ _ _ _ _ _ _ _ _ _ Hb).
    eexists. split; [reflexivity|]. repeat split.
    intros m _. destruct m; eexists; by split.
  - destruct top_ as [|t0 rest]; simpl in Hlen; try lia.
    rewrite (Forward_cpu_no_labels _ _ _ _ _ _ _ _ _ _ _ _ _ Hb).
    eexists. split; [reflexivity|]. repeat split.
    intros m [->|[=]]. eexists; by split.
Qed.

Lemma values_get_staged m batch :
  values (get m (upd m_data staged batch)) = values (get m batch) ∧
  shape_ (get m (upd m_data staged batch)) = shape_ (get m batch).
Proof. by destruct batch, m. Qed.

Lemma delivered_forward_events labels batch :
  delivered (forward_events labels batch) = [values (data_ batch)].
Proof. by destruct labels. Qed.

(** X9.  The way of a batch through the layer: with an empty full queue and an
    idle consumer, one pass of the loop of the worker on the free slot [b]
    followed by one call of [Forward_cpu] with enough destinations leaves in
    each destination the call writes the shape and the values of the array
    the [k]-th call of [load_batch] made, [k] being the number of loads
    before; the primary array is the one more delivery, and [b] is back at
    the tail of the free queue with the full queue empty again. *)
Theorem X9_load_to_destination s top_ b q batch :
  wpc s = WLoop → interruption_requested s = false → cpc s = CIdle →
  prefetch_free_ s = b :: q → prefetch_full_ s = [] →
  prefetch_ s !! b = Some batch →
  (gpu_mode = true → stream s = StreamLive []) →
  (if output_labels_ s then 10 else 1) ≤ length top_ →
  ∃ s1 s2,
    run (pass gpu_mode) s = Some s1 ∧
    Forward_cpu top_ s1 = Some s2 ∧
    prefetch_free_ s2 = q ++ [b] ∧ prefetch_full_ s2 = [] ∧
    delivered (trace s2) =
      delivered (trace s) ++ [values (data_ (load_batch (loads s) batch))] ∧
    ∀ m, m = m_data ∨ output_labels_ s = true →
      ∃ dst', top s2 !! top_index m = Some dst' ∧
        shape_ dst' = shape_ (get m (load_batch (loads s) batch)) ∧
        host dst' = values (get m (load_batch (loads s) batch)).
Proof.
  intros Hw Hi Hc Hfr Hfu Hb Hst Hlen.
  destruct s as [p fr fu ol tp w c st ir ld tr].
  cbn [wpc interruption_requested prefetch_free_ prefetch_ stream
       prefetch_full_ loads trace cpc top output_labels_] in *.
  subst w ir fr c fu.
  rewrite (run_pass _ _ _ _ _ _ _ _ _ _ _ Hb Hst).
  edestruct (Forward_cpu_delivers
    (mkPipeline
       (<[b := (if gpu_mode then upd m_data staged else id)
                 (load_batch ld batch)]> p)
       q ([] ++ [b]) ol tp WLoop CIdle st false (S ld)
       (tr ++ pass_events gpu_mode b (values (data_ (load_batch ld batch)))
           ++ [EvPushFull b]))
    top_ b [])
    as (s2 & Hs2 & H1 & H2 & H3 & H4 & H5);
    [reflexivity|reflexivity| |exact Hlen|].
  { apply list_lookup_insert_eq. by apply lookup_lt_Some in Hb. }
  eexists _, s2. split; [reflexivity|]. split; [exact Hs2|].
  cbn [prefetch_free_ trace output_labels_] in *.
  repeat split; try done.
  - rewrite H4, !delivered_app, delivered_forward_events.
    replace (delivered (pass_events _ _ _)) with (@nil (list Z))
      by (by destruct gpu_mode).
    cbn. rewrite !app_nil_r. f_equal. f_equal.
    destruct gpu_mode; [apply values_data_staged|done].
  - intros m Hm. destruct (H5 m Hm) as (dst & _ & ->).
    eexists. split; [reflexivity|].
    rewrite received_shape, received_host.
    destruct gpu_mode; [|done].
    destruct (values_get_staged m (load_batch ld batch)) as [-> ->]. done.
Qed.



(** ** Where the request of an interruption is seen *)


(** The test of the loop and the clean-up, as transitions of a schedule. *)
Ltac schedule_exit :=
  erewrite run_cons;
  [ | cbn [caffe.perform];
      unfold caffe.InternalThreadEntry_step, must_stop;
      setters; reflexivity ].



(** ** Where the two threads wait *)

Lemma worker_slot_in_pool s b :
  reachable s → b ∈ wslot (wpc s) → is_Some (prefetch_ s !! b).
Proof.
  intros Hr Hb. apply lookup_lt_is_Some.
  apply owner_in_pool; [by apply slots_conserved_reachable|].
  unfold owners. rewrite !elem_of_app. auto.
Qed.

(** An equivalence between "no transition" and a disjunction of places,
    at a given program counter. *)
Ltac settle_wait :=
  split;
  [ first [ discriminate
          | intros _;
            first [ by left | by (right; left) | by (right; right; left)
                  | by (right; right; right; eexists)
                  | by (right; right; eexists _, _) ] ]
  | first [ reflexivity
          | let Hd := fresh "Hd" in
            intros Hd; exfalso;
            repeat match type of Hd with
                   | _ ∨ _ => destruct Hd as [Hd|Hd]
                   | _ ∧ _ => let H1 := fresh in destruct Hd as [H1 Hd];
                              try discriminate H1
                   | ∃ _, _ => destruct Hd as [? Hd]
                   end; first [discriminate Hd | done] ] ].

Lemma worker_waits s :
  reachable s →
  InternalThreadEntry_step s = None ↔
  wpc s = WIdle ∨ wpc s = WDone ∨
  (wpc s = WPop ∧ prefetch_free_ s = [] ∧ interruption_requested s = false) ∨
  (∃ b, wpc s = WSync b ∧ pending_copies s ≠ []).
Proof.
  intros Hr.
  assert (∀ b, b ∈ wslot (wpc s) → is_Some (prefetch_ s !! b)) as Hslot
    by (intros; by apply worker_slot_in_pool).
  pose proof (stream_inv_reachable s Hr) as Hst.
  pose proof (pass_inv_reachable s Hr) as [_ Hpp].
  unfold stream_inv, pass_progress, pending_copies in *.
  destruct s as [p fr fu ol tp w c st ir ld tr].
  unfold caffe.InternalThreadEntry_step, must_stop, try_pop, next_after_load.
  setters. cbn [wslot pending_of] in *.
  destruct w.
  - settle_wait.
  - destruct gpu_mode; settle_wait.
  - destruct ir; settle_wait.
  - destruct fr, ir; settle_wait.
  - destruct (Hslot b) as [batch ->]; [by left|]. settle_wait.
  - destruct (Hslot b) as [batch ->]; [by left|]. settle_wait.
  - destruct Hpp as [Hg _]. rewrite Hg in Hst.
    destruct Hst as [pending ->]. settle_wait.
  - destruct Hpp as [Hg _]. rewrite Hg in Hst.
    destruct Hst as [pending ->]. destruct pending; settle_wait.
  - settle_wait.
  - destruct gpu_mode; settle_wait.
  - settle_wait.
Qed.


Lemma destinations_inv_reachable s : reachable s → destinations_inv s.
Proof.
  induction 1 as [labels0|s s' Hr IH Hs]; [done|].
  clear Hr. unfold destinations_inv in *.
  step_cases s Hs; cbn [cpc top] in *; try done.
  all: repeat match goal with
       | H : _ !! _ = Some _ |- _ => apply lookup_lt_Some in H
       end.
  all: try match goal with m : member |- _ => destruct m end.
  all: try destruct ol.
  all: cbn [after_reshape after_copy top_index] in *.
  all: rewrite ?length_insert; try done; lia.
Qed.

Lemma consumer_slot_in_pool s b :
  reachable s → b ∈ cslot (cpc s) → is_Some (prefetch_ s !! b).
Proof.
  intros Hr Hb. apply lookup_lt_is_Some.
  apply owner_in_pool; [by apply slots_conserved_reachable|].
  unfold owners. rewrite !elem_of_app. auto.
Qed.

Lemma consumer_waits s :
  reachable s →
  Forward_cpu_step s = None ↔
  cpc s = CIdle ∨ (cpc s = CPop ∧ prefetch_full_ s = []) ∨
  (∃ m b, cpc s = CReshape m b ∧ top_index m = length (top s)).
Proof.
  intros Hr.
  assert (∀ b, b ∈ cslot (cpc s) → is_Some (prefetch_ s !! b)) as Hslot
    by (intros; by apply consumer_slot_in_pool).
  pose proof (destinations_inv_reachable s Hr) as Hd.
  unfold destinations_inv in *.
  destruct s as [p fr fu ol tp w c st ir ld tr].
  unfold Forward_cpu_step, try_pop. setters. cbn [cslot] in *.
  destruct c.
  - settle_wait.
  - destruct fu; settle_wait.
  - destruct (Hslot b) as [batch ->]; [by left|]. cbn [mbind option_bind].
    destruct (tp !! top_index m) as [dst|] eqn:Ht; cbn [mbind option_bind].
    + apply lookup_lt_Some in Ht. split; [done|].
      intros [?|[[? _]|(m' & b' & [= -> ->] & Hl)]]; try done. lia.
    + apply lookup_ge_None in Ht. split; [|done]. intros _.
      right; right. exists m, b. split; [done|lia].
  - destruct (Hslot b) as [batch ->]; [by left|]. cbn [mbind option_bind].
    destruct (tp !! top_index m) as [dst|] eqn:Ht; cbn [mbind option_bind].
    + settle_wait.
    + apply lookup_ge_None in Ht. destruct m; cbn [top_index] in *; lia.
  - settle_wait.
Qed.


(** X12.  No deadlock: with at least one slot, a worker that has been started and
    has not returned, and a call of [Forward_cpu] in progress that has a
    destination for its next [ReshapeLike], the worker, the device or the
    consumer has a transition. *)
Theorem X12_no_deadlock s :
  reachable s → 0 < PREFETCH_COUNT →
  wpc s ≠ WIdle → wpc s ≠ WDone → cpc s ≠ CIdle →
  (∀ m b, cpc s = CReshape m b → top_index m < length (top s)) →
  is_Some (perform AWorker s) ∨ is_Some (perform ADevice s) ∨
  is_Some (perform AConsumer s).
Proof.
  intros Hr Hn Hw1 Hw2 Hc1 Hc2. cbn [caffe.perform].
  destruct (InternalThreadEntry_step s) as [s1|] eqn:Hws; [by left; eexists|].
  apply (worker_waits s Hr) in Hws
    as [?|[?|[(Hw & Hfr & _)|(b & Hw & Hp)]]]; try done.
  - right; right.
    destruct (Forward_cpu_step s) as [s2|] eqn:Hcs; [by eexists|].
    apply (consumer_waits s Hr) in Hcs
      as [?|[[Hc Hfu]|(m & b & Hc & Hl)]]; try done.
    + pose proof (slots_conserved_reachable s Hr) as [Hp _].
      apply Permutation_length in Hp. unfold owners in Hp.
      rewrite !length_app, length_seq, Hw, Hfr, Hc, Hfu in Hp.
      simpl in Hp. lia.
    + specialize (Hc2 m b Hc). lia.
  - right; left. unfold device_step, pending_copies, pending_of in *.
    destruct (stream s) as [|[|[b' m] pending]|]; done.
Qed.


(** ** What set-up leaves alone *)




(** ** The worker runs ahead until every slot is full *)

Lemma run_app n gpu hook lb le acts1 acts2 s :
  caffe.run n gpu hook lb le (acts1 ++ acts2) s =
  caffe.run n gpu hook lb le acts1 s ≫= caffe.run n gpu hook lb le acts2.
Proof.
  revert s. induction acts1 as [|a acts1 IH]; intros s; [done|].
  simpl. destruct (caffe.perform n gpu hook lb le a s); simpl; [apply IH|done].
Qed.

Lemma run_passes q ol tp c st fr : ∀ p fu ld tr,
  NoDup fr → Forall (λ b, is_Some (p !! b)) fr →
  (gpu_mode = true → st = StreamLive []) →
  ∃ p' tr',
    run (passes gpu_mode (length fr))
        (mkPipeline p (fr ++ q) fu ol tp WLoop c st false ld tr) =
    Some (mkPipeline p' q (fu ++ fr) ol tp WLoop c st false
            (ld + length fr) tr') ∧
    (∀ j b, fr !! j = Some b →
       ∃ batch, p !! b = Some batch ∧
         p' !! b = Some ((if gpu_mode then upd m_data staged else id)
                           (load_batch (ld + j) batch))) ∧
    (∀ b, b ∉ fr → p' !! b = p !! b).
Proof.
  induction fr as [|b fr IH]; intros p fu ld tr Hnd Hv Hst.
  - exists p, tr. cbn. rewrite app_nil_r, Nat.add_0_r. by repeat split.
  - apply NoDup_cons in Hnd as [Hb Hnd].
    apply Forall_cons in Hv as [[batch Hbatch] Hv].
    cbn [length passes]. rewrite run_app, <- app_comm_cons.
    rewrite (run_pass _ _ _ _ _ _ _ _ _ _ _ Hbatch Hst).
    cbn [mbind option_bind].
    edestruct (IH (<[b := (if gpu_mode then upd m_data staged else id)
                            (load_batch ld batch)]> p)
                  (fu ++ [b]) (S ld)) as (p' & tr' & Hrun & Hin & Hout);
      [exact Hnd| |exact Hst|].
    { eapply Forall_impl; [exact Hv|]. intros x Hx.
      by apply list_lookup_insert_is_Some. }
    exists p', tr'. split; [|split].
    + rewrite Hrun, <- app_assoc.
      by replace (ld + S (length fr)) with (S ld + length fr) by lia.
    + intros j x Hj. destruct j as [|j]; simpl in Hj.
      * injection Hj as <-. exists batch. split; [done|].
        rewrite Hout by done. rewrite Nat.add_0_r.
        apply list_lookup_insert_eq. by apply lookup_lt_Some in Hbatch.
      * destruct (Hin j x Hj) as (batch' & Hb' & Hp').
        assert (b ≠ x) as Hne.
        { intros ->. apply Hb. by eapply list_elem_of_lookup_2. }
        rewrite list_lookup_insert_ne in Hb' by done.
        exists batch'. split; [done|]. rewrite Hp'.
        by replace (ld + S j) with (S ld + j) by lia.
    + intros x Hx. apply not_elem_of_cons in Hx as [Hne Hx].
      rewrite Hout by done. by apply list_lookup_insert_ne.
Qed.

Lemma idle_stream_at_test s :
  reachable s → wpc s = WLoop → gpu_mode = true → stream s = StreamLive [].
Proof.
  intros Hr Hw Hg.
  pose proof (stream_inv_reachable s Hr) as Hst.
  pose proof (staging_inv_reachable s Hr) as [_ Hp].
  unfold stream_inv, pending_copies in *. rewrite Hw, Hg in *.
  destruct Hst as [pending Hst]. rewrite Hst in *. simpl in Hp. by subst.
Qed.

(** X14.  Left alone, the worker fills every free slot and then waits: from the
    test of its loop in a reachable state, with no interruption requested,
    as many passes as there are free slots and one more test bring the
    worker into the pop of the empty free queue, where it has no transition;
    the slots that were free are at the tail of the full queue in the order
    they were popped, the [j]-th of them holds what the [(k+j)]-th call of
    [load_batch] made of it, [k] being the number of loads before, the other
    slots are untouched, and the consumer is where it was. *)
Theorem X14_prefetch_ahead s :
  reachable s → wpc s = WLoop → interruption_requested s = false →
  ∃ s',
    run (passes gpu_mode (length (prefetch_free_ s)) ++ [AWorker]) s = Some s' ∧
    wpc s' = WPop ∧ InternalThreadEntry_step s' = None ∧
    prefetch_free_ s' = [] ∧
    prefetch_full_ s' = prefetch_full_ s ++ prefetch_free_ s ∧
    loads s' = loads s + length (prefetch_free_ s) ∧
    (∀ j b, prefetch_free_ s !! j = Some b →
       ∃ batch, prefetch_ s !! b = Some batch ∧
         prefetch_ s' !! b =
           Some ((if gpu_mode then upd m_data staged else id)
                   (load_batch (loads s + j) batch))) ∧
    (∀ b, b ∉ prefetch_free_ s → prefetch_ s' !! b = prefetch_ s !! b) ∧
    cpc s' = cpc s ∧ top s' = top s.
Proof.
  intros Hr Hw Hi.
  pose proof (idle_stream_at_test s Hr Hw) as Hst.
  pose proof (slots_conserved_reachable s Hr) as Hc.
  pose proof (owners_NoDup s Hc) as Hnd.
  assert (Forall (λ b, is_Some (prefetch_ s !! b)) (prefetch_free_ s)) as Hv.
  { apply Forall_forall. intros b Hb. apply lookup_lt_is_Some.
    apply owner_in_pool; [done|]. unfold owners. rewrite !elem_of_app. auto. }
  apply NoDup_app in Hnd as (Hnd & _ & _). clear Hr Hc.
  destruct s as [p fr fu ol tp w c st ir ld tr].
  cbn [wpc interruption_requested prefetch_free_ prefetch_ stream
       prefetch_full_ loads trace cpc top] in *.
  subst w ir.
  destruct (run_passes [] ol tp c st fr p fu ld tr Hnd Hv Hst)
    as (p' & tr' & Hrun & Hin & Hout).
  rewrite app_nil_r in Hrun.
  rewrite run_app, Hrun. cbn [mbind option_bind].
  schedule_exit. eexists. split; [reflexivity|].
  by repeat split.
Qed.


(** ** Shutdown *)

(** A transition of a schedule that reads no slot. *)
Ltac schedule_plain :=
  erewrite run_cons;
  [ | cbn [caffe.perform];
      unfold caffe.InternalThreadEntry_step, device_step, must_stop, try_pop,
        next_after_load;
      setters; cbn [app mbind option_bind]; reflexivity ].

(** The end of a proof that a schedule brings the worker to its return. *)
Ltac shutdown_by acts tac :=
  exists acts; eexists;
  split; [repeat constructor; auto|];
  split; [simpl; lia|];
  split; [tac; reflexivity|];
  cbn [wpc cpc top loads interruption_requested];
  repeat split; lia.

(** X15.  Once an interruption is requested the worker returns, whatever the
    consumer does: from every reachable state with a started worker and the
    interruption requested, at most nine transitions of the worker and of
    the device, and none of the consumer, bring the worker to the return of
    its thread function; at most one more batch is loaded on the way. *)
Theorem X15_shutdown_completes s :
  reachable s → interruption_requested s = true → wpc s ≠ WIdle →
  ∃ acts s',
    Forall (λ a, a = AWorker ∨ a = ADevice) acts ∧
    length acts ≤ 9 ∧
    run acts s = Some s' ∧
    wpc s' = WDone ∧
    cpc s' = cpc s ∧ top s' = top s ∧
    loads s ≤ loads s' ∧ loads s' ≤ S (loads s).
Proof.
  intros Hr Hi Hw.
  pose proof (stream_inv_reachable s Hr) as Hst.
  pose proof (staging_inv_reachable s Hr) as [_ Hp].
  pose proof (pass_inv_reachable s Hr) as [_ Hpp].
  assert (∀ b, b ∈ prefetch_free_ s ++ wslot (wpc s) →
               is_Some (prefetch_ s !! b)) as Hslot.
  { intros b Hb. apply lookup_lt_is_Some.
    apply owner_in_pool; [by apply slots_conserved_reachable|].
    unfold owners. revert Hb. rewrite !elem_of_app. tauto. }
  clear Hr. unfold stream_inv, pass_progress, pending_copies in *.
  destruct s as [p fr fu ol tp w c st ir ld tr].
  cbn [wpc interruption_requested prefetch_free_ prefetch_ stream
       prefetch_full_ loads trace cpc top wslot pending_of] in *.
  subst ir. destruct w; try done.
  - (* entry *)
    destruct gpu_mode;
      shutdown_by [AWorker; AWorker; AWorker] ltac:(do 3 schedule_plain).
  - (* the test of the loop *)
    destruct gpu_mode;
      shutdown_by [AWorker; AWorker] ltac:(do 2 schedule_plain).
  - (* the pop *)
    destruct fr as [|b q].
    + destruct gpu_mode;
        shutdown_by [AWorker; AWorker] ltac:(do 2 schedule_plain).
    + destruct (Hslot b) as [batch Hb]; [by left|].
      destruct gpu_mode.
      * destruct Hst as [pending ->]. simpl in Hp. subst pending.
        shutdown_by [AWorker; AWorker; AWorker; AWorker; ADevice; AWorker;
                     AWorker; AWorker; AWorker]
          ltac:(do 9 schedule_statement Hb).
      * shutdown_by [AWorker; AWorker; AWorker; AWorker; AWorker; AWorker]
          ltac:(do 6 schedule_statement Hb).
  - (* load_batch is called *)
    destruct (Hslot b) as [batch Hb]; [apply elem_of_app; right; by left|].
    destruct gpu_mode.
    + destruct Hst as [pending ->]. simpl in Hp. subst pending.
      shutdown_by [AWorker; AWorker; AWorker; ADevice; AWorker;
                   AWorker; AWorker; AWorker]
        ltac:(do 8 schedule_statement Hb).
    + shutdown_by [AWorker; AWorker; AWorker; AWorker; AWorker]
        ltac:(do 5 schedule_statement Hb).
  - (* load_batch returns *)
    destruct (Hslot b) as [batch Hb]; [apply elem_of_app; right; by left|].
    destruct gpu_mode.
    + destruct Hst as [pending ->]. simpl in Hp. subst pending.
      shutdown_by [AWorker; AWorker; ADevice; AWorker;
                   AWorker; AWorker; AWorker]
        ltac:(do 7 schedule_statement Hb).
    + shutdown_by [AWorker; AWorker; AWorker; AWorker]
        ltac:(do 4 schedule_statement Hb).
  - (* async_gpu_push *)
    destruct Hpp as [Hg _]. rewrite Hg in *.
    destruct Hst as [pending ->]. simpl in Hp. subst pending.
    shutdown_by [AWorker; ADevice; AWorker; AWorker; AWorker; AWorker]
      ltac:(do 6 schedule_plain).
  - (* cudaStreamSynchronize *)
    destruct Hpp as [Hg _]. rewrite Hg in *.
    destruct Hst as [pending ->]. simpl in Hp.
    destruct Hp as [->|[-> _]].
    + shutdown_by [ADevice; AWorker; AWorker; AWorker; AWorker]
        ltac:(do 5 schedule_plain).
    + shutdown_by [AWorker; AWorker; AWorker; AWorker]
        ltac:(do 4 schedule_plain).
  - (* the push *)
    destruct gpu_mode;
      shutdown_by [AWorker; AWorker; AWorker] ltac:(do 3 schedule_plain).
  - (* the clean-up *)
    destruct gpu_mode; shutdown_by [AWorker] ltac:(schedule_plain).
  - (* returned *)
    shutdown_by (@nil action) ltac:(idtac).
Qed.


(** ** The calls of Forward_cpu under interleaving *)

Lemma consumer_trace_app t1 t2 :
  consumer_trace (t1 ++ t2) = consumer_trace t1 ++ consumer_trace t2.
Proof. apply List.filter_app. Qed.

Lemma setup_events_no_consumer es :
  Forall (λ e, is_setup_event e = true) es → consumer_trace es = [].
Proof.
  induction 1 as [|e es He _ IH]; [done|].
  unfold consumer_trace in *. destruct e; simplify_eq/=; by rewrite ?IH.
Qed.

Lemma consumer_trace_undisturbed s a s' :
  a = AWorker ∨ a = ADevice ∨ a = AInterrupt →
  perform a s = Some s' →
  consumer_trace (trace s') = consumer_trace (trace s).
Proof.
  intros Ha Hs.
  perform_cases s a Hs; try (by destruct Ha as [?|[?|?]]).
  all: cbn [trace]; rewrite ?consumer_trace_app; cbn; by rewrite ?app_nil_r.
Qed.

(** X16.  Whatever the worker and the device do in between, the calls of the
    consumer are always those of a sequence of whole calls of [Forward_cpu],
    each the pop of a slot, the reshapes and copies of the arrays of that
    slot in the fixed order and the push of the same slot, followed by the
    calls the call in progress has made so far, which are a prefix of such
    a sequence for the slot it holds. *)
Theorem X16_calls_under_interleaving s :
  reachable s →
  ∃ calls : list (bool * nat * Batch),
    consumer_trace (trace s) =
    flat_map (λ c, call_events c.1.1 c.1.2 c.2) calls ++ call_in_progress s.
Proof.
  intros Hr. change (whole_calls s).
  induction Hr as [labels0|s s' Hr IH Hs]; [by exists []|].
  destruct Hs as [a Hs]. destruct IH as [calls IH].
  pose proof (Forward_cpu_undisturbed s a s' Hr) as Hund.
  pose proof (consumer_trace_undisturbed s a s') as Htr.
  pose proof (labels_off_inv_reachable s Hr) as Hoff.
  unfold whole_calls, call_in_progress, labels_off_inv, primary_pc in *.
  pose proof (λ b q, full_slot_in_pool s b q Hr) as Hfull.
  pose proof (λ b, consumer_slot_in_pool s b Hr) as Hcons.
  destruct a.
  - (* set-up *)
    cbn [caffe.perform] in Hs. destruct (cpc s) eqn:Hc; try discriminate Hs.
    rewrite LayerSetUp_eq in Hs. destruct (wpc s); try discriminate Hs.
    injection Hs as <-. cbn [trace cpc cslot] in *. exists calls.
    change (EvTransformerReset :: _)
      with (warmup_events (negotiated top_) ++ [EvStartInternalThread]).
    rewrite consumer_trace_app,
      (setup_events_no_consumer _ (warmup_events_setup _)), IH, Hc.
    by rewrite app_nil_r.
  - (* the worker *)
    destruct (Hund (or_introl eq_refl) Hs) as (_ & Hc & Hol & Hslot).
    exists calls. rewrite (Htr (or_introl eq_refl) Hs), Hc, Hol, IH. f_equal.
    destruct (cslot (cpc s)) as [|b [|]]; try done.
    rewrite Hslot; [done|by left].
  - (* the device *)
    destruct (Hund (or_intror (or_introl eq_refl)) Hs) as (_ & Hc & Hol & Hslot).
    exists calls.
    rewrite (Htr (or_intror (or_introl eq_refl)) Hs), Hc, Hol, IH. f_equal.
    destruct (cslot (cpc s)) as [|b [|]]; try done.
    rewrite Hslot; [done|by left].
  - (* the call is entered *)
    cbn [caffe.perform] in Hs. unfold Forward_cpu_call in Hs.
    destruct (cpc s) eqn:Hc; try discriminate Hs.
    injection Hs as <-. exists calls. clear Hund Htr Hfull Hoff Hr.
    destruct s. cbn in *. by subst.
  - (* a statement of the call *)
    clear Hund Htr Hr.
    destruct s as [p fr fu ol tp w c st ir ld tr].
    cbn [caffe.perform] in Hs. unfold Forward_cpu_step, try_pop in Hs.
    setters. case_step Hs; setters.
    all: cbn [cslot statements_done] in *.
    all: rewrite consumer_trace_app, IH;
      cbn [consumer_trace List.filter is_consumer_event].
    all: repeat match goal with H : _ !! _ = Some _ |- _ => rewrite H end.
    + (* the pop *)
      destruct (Hfull _ _ eq_refl) as [batch ->].
      exists calls. by rewrite app_nil_r.
    + (* a reshape *)
      exists calls. rewrite <- app_assoc. f_equal.
      destruct ol; [destruct m|destruct Hoff as [_ ->]; [done|]];
        cbn [after_reshape after_copy cslot];
        match goal with H : _ !! _ = Some _ |- _ => rewrite H end;
        reflexivity.
    + (* a copy *)
      exists calls. rewrite <- app_assoc. f_equal.
      destruct ol; [destruct m|destruct Hoff as [_ ->]; [done|]];
        cbn [after_reshape after_copy cslot];
        match goal with H : _ !! _ = Some _ |- _ => rewrite H end;
        reflexivity.
    + (* the push *)
      destruct (Hcons b) as [batch ->]; [by left|].
      exists (calls ++ [(ol, b, batch)]).
      rewrite flat_map_app, <- app_assoc, app_nil_r. f_equal.
      by destruct ol.
  - (* the request of an interruption *)
    destruct (Hund (or_intror (or_intror eq_refl)) Hs) as (_ & Hc & Hol & Hslot).
    exists calls.
    rewrite (Htr (or_intror (or_intror eq_refl)) Hs), Hc, Hol, IH. f_equal.
    destruct (cslot (cpc s)) as [|b [|]]; try done.
    rewrite Hslot; [done|by left].
Qed.



End Properties.

(** ** The concrete layer *)

Lemma run_reachable n gpu hook lb le acts s s' :
  reachable n gpu hook lb le s →
  run n gpu hook lb le acts s = Some s' →
  reachable n gpu hook lb le s'.
Proof.
  revert s. induction acts as [|a acts IH]; intros s Hr Hrun; simpl in Hrun.
  - by injection Hrun as <-.
  - destruct (perform n gpu hook lb le a s) as [s1|] eqn:Hs; [|done].
    apply (IH s1); [|done]. eapply reachable_step; [done|]. by exists a.
Qed.


Lemma busy_reachable :
  reachable 3 true Demo.no_hook Demo.stamp_begin Demo.stamp_end Demo.busy.
Proof.
  eapply (run_reachable _ _ _ _ _ Demo.busy_schedule);
    [apply (reachable_init true) | vm_compute; reflexivity].
Defined.



Lemma C3_no_concurrent_mutation_witness :
  (∀ b, b ∈ wslot (wpc Demo.busy) → b ∉ cslot (cpc Demo.busy)) ∧
  (∀ b a s', b ∈ cslot (cpc Demo.busy) → a = AWorker ∨ a = ADevice →
     perform 3 true Demo.no_hook Demo.stamp_begin Demo.stamp_end a Demo.busy
     = Some s' →
     prefetch_ s' !! b = prefetch_ Demo.busy !! b) ∧
  (∀ v, v ∈ delivered (trace Demo.busy) → v ∈ produced (trace Demo.busy)).
Proof.
  exact (C3_no_concurrent_mutation 3 true Demo.no_hook Demo.stamp_begin
           Demo.stamp_end Demo.busy busy_reachable).
Defined.

Lemma C4_Forward_cpu_witness :
  ∃ s', Forward_cpu Demo.top10 Demo.ready = Some s' ∧
    cpc s' = CIdle ∧
    prefetch_full_ s' = [1] ∧
    prefetch_free_ s' = prefetch_free_ Demo.ready ++ [0] ∧
    prefetch_ s' = prefetch_ Demo.ready ∧
    trace s' = trace Demo.ready ++ [EvPopFull diagnostic 0]
                 ++ forward_events (output_labels_ Demo.ready) Demo.ready_batch
                 ++ [EvPushFree 0] ∧
    ∀ m, m = m_data ∨ output_labels_ Demo.ready = true →
      ∃ dst dst',
        Demo.top10 !! top_index m = Some dst ∧
        top s' !! top_index m = Some dst' ∧
        dst' = received dst (get m Demo.ready_batch) ∧
        shape_ dst' = shape_ (get m Demo.ready_batch) ∧
        host dst' = values (get m Demo.ready_batch).
Proof.
  apply (C4_Forward_cpu Demo.ready Demo.top10);
    [reflexivity | simpl; lia | reflexivity].
Defined.

Lemma ready1_reachable :
  reachable 3 false Demo.no_hook Demo.stamp_begin Demo.stamp_end Demo.ready1.
Proof.
  eapply (run_reachable _ _ _ _ _ Demo.ready1_schedule);
    [apply (reachable_init true) | vm_compute; reflexivity].
Defined.

Lemma C5_labels_disabled_witness :
  Forall (λ e, secondary_access e = false) (trace Demo.ready1) ∧
  ∀ top_ b q batch,
    cpc Demo.ready1 = CIdle → prefetch_full_ Demo.ready1 = b :: q →
    prefetch_ Demo.ready1 !! b = Some batch → 1 ≤ length top_ →
    ∃ s', Forward_cpu top_ Demo.ready1 = Some s' ∧
      trace s' = trace Demo.ready1
                   ++ [EvPopFull diagnostic b; EvReshapeLike 0 m_data;
                       EvCopy 0 m_data (values (data_ batch));
                       EvPushFree b] ∧
      (∀ i, i ≠ 0 → top s' !! i = top_ !! i) ∧
      length (top s') = length top_ ∧
      prefetch_ s' = prefetch_ Demo.ready1.
Proof.
  exact (C5_labels_disabled 3 false Demo.no_hook Demo.stamp_begin
           Demo.stamp_end Demo.ready1 ready1_reachable eq_refl).
Defined.


Lemma C8_interruption_while_blocked_witness :
  (interruption_requested Demo.blocked = false →
   InternalThreadEntry_step true Demo.stamp_begin Demo.stamp_end Demo.blocked
   = None) ∧
  ∃ s1 s2,
    InternalThreadEntry_step true Demo.stamp_begin Demo.stamp_end
      (request_interruption Demo.blocked) = Some s1 ∧
    wpc s1 = WCleanup ∧
    InternalThreadEntry_step true Demo.stamp_begin Demo.stamp_end s1
    = Some s2 ∧
    wpc s2 = WDone ∧
    InternalThreadEntry_step true Demo.stamp_begin Demo.stamp_end s2 = None ∧
    trace s2 = trace Demo.blocked ++ [EvInterrupted] ++ [EvStreamDestroy] ∧
    stream s2 = StreamDestroyed ∧
    prefetch_free_ s2 = [] ∧
    prefetch_full_ s2 = prefetch_full_ Demo.blocked ∧
    prefetch_ s2 = prefetch_ Demo.blocked.
Proof.
  apply (C8_interruption_while_blocked true Demo.stamp_begin Demo.stamp_end
           Demo.blocked); reflexivity.
Defined.

Lemma C9_warmup_before_start_witness :
  ∃ s', LayerSetUp 3 true Demo.no_hook Demo.top10 (Demo.init false) = Some s' ∧
    wpc s' = WEntry ∧
    trace s' = trace (Demo.init false)
                 ++ warmup_events 3 true (output_labels_ s')
                 ++ [EvStartInternalThread] ∧
    (EvStartInternalThread ∉ warmup_events 3 true (output_labels_ s')) ∧
    ∀ i m, i < 3 → m = m_data ∨ output_labels_ s' = true →
      EvMutableCpuData i m ∈ warmup_events 3 true (output_labels_ s') ∧
      (true = true →
       EvMutableGpuData i m ∈ warmup_events 3 true (output_labels_ s')) ∧
      ∀ batch, prefetch_ s' !! i = Some batch →
        host_ready (get m batch) = true ∧
        (true = true → device_ready (get m batch) = true).
Proof.
  apply (C9_warmup_before_start 3 true Demo.no_hook Demo.stamp_begin
           Demo.stamp_end Demo.top10 (Demo.init false)).
  reflexivity.
Defined.

Lemma C10_only_primary_array_staged_witness :
  only_primary_staged (trace Demo.busy) ∧
  (∀ b m, (b, m) ∈ pending_copies Demo.busy → m = m_data) ∧
  (∀ a s', staging_step Demo.busy a →
     perform 3 true Demo.no_hook Demo.stamp_begin Demo.stamp_end a Demo.busy
     = Some s' →
     ∀ i m, m ≠ m_data →
       get m <$> (prefetch_ s' !! i) = get m <$> (prefetch_ Demo.busy !! i)) ∧
  (∀ m b batch dst s',
     cpc Demo.busy = CCopy m b → prefetch_ Demo.busy !! b = Some batch →
     top Demo.busy !! top_index m = Some dst →
     Forward_cpu_step Demo.busy = Some s' →
     host <$> (top s' !! top_index m) =
     Some (caffe_copy (count (get m batch)) (host (get m batch)) (host dst))).
Proof.
  exact (C10_only_primary_array_staged 3 true Demo.no_hook Demo.stamp_begin
           Demo.stamp_end Demo.busy busy_reachable).
Defined.

(** ** The further properties on the concrete layer *)


Lemma primed_reachable :
  reachable 3 true Demo.no_hook Demo.stamp_begin Demo.stamp_end Demo.primed.
Proof.
  eapply (run_reachable _ _ _ _ _ Demo.primed_schedule);
    [apply (reachable_init true) | vm_compute; reflexivity].
Defined.

Lemma stopping_reachable :
  reachable 3 true Demo.no_hook Demo.stamp_begin Demo.stamp_end
    (request_interruption Demo.busy).
Proof.
  eapply reachable_step; [exact busy_reachable|].
  by exists AInterrupt.
Defined.

Lemma X1_bounded_lead_witness :
  loads Demo.busy ≤ length (delivered (trace Demo.busy)) + 3 ∧
  length (prefetch_full_ Demo.busy) ≤ 3.
Proof.
  exact (X1_bounded_lead 3 true Demo.no_hook Demo.stamp_begin Demo.stamp_end
           Demo.busy busy_reachable).
Defined.


Lemma X3_stream_lifetime_witness :
  stream_inv true Demo.busy ∧ stream_bracket true Demo.busy ∧
  length (pending_copies Demo.busy) ≤ 1.
Proof.
  exact (X3_stream_lifetime 3 true Demo.no_hook Demo.stamp_begin
           Demo.stamp_end Demo.busy busy_reachable).
Defined.

Lemma X4_cpu_mode_host_only_witness :
  Forall (λ e, is_device_call e = false) (trace Demo.ready1) ∧
  stream Demo.ready1 = StreamNone ∧
  (∀ b, wpc Demo.ready1 ≠ WStage b ∧ wpc Demo.ready1 ≠ WSync b) ∧
  device_step Demo.ready1 = None.
Proof.
  exact (X4_cpu_mode_host_only 3 false Demo.no_hook Demo.stamp_begin
           Demo.stamp_end Demo.ready1 eq_refl ready1_reachable).
Defined.

Lemma X5_publish_after_load_witness :
  pushes_loaded true (worker_trace (trace Demo.busy)).
Proof.
  exact (X5_publish_after_load 3 true Demo.no_hook Demo.stamp_begin
           Demo.stamp_end Demo.busy busy_reachable).
Defined.



Lemma X8_worker_pass_witness :
  ∃ s', Demo.go true (pass true) Demo.primed = Some s' ∧
    wpc s' = WLoop ∧
    prefetch_free_ s' = [1; 2] ∧
    prefetch_full_ s' = prefetch_full_ Demo.primed ++ [0] ∧
    prefetch_ s' =
      <[0 := upd m_data staged
               (load_batch Demo.stamp_begin Demo.stamp_end
                  (loads Demo.primed) Demo.primed_batch)]>
        (prefetch_ Demo.primed) ∧
    loads s' = S (loads Demo.primed) ∧
    trace s' = trace Demo.primed
                 ++ pass_events true 0
                      (values (data_ (load_batch Demo.stamp_begin
                                        Demo.stamp_end (loads Demo.primed)
                                        Demo.primed_batch)))
                 ++ [EvPushFull 0] ∧
    stream s' = stream Demo.primed ∧ cpc s' = cpc Demo.primed ∧
    top s' = top Demo.primed ∧
    output_labels_ s' = output_labels_ Demo.primed ∧
    interruption_requested s' = false.
Proof.
  apply (X8_worker_pass 3 true Demo.no_hook Demo.stamp_begin Demo.stamp_end
           Demo.primed 0 [1; 2] Demo.primed_batch); reflexivity.
Defined.

Lemma X9_load_to_destination_witness :
  ∃ s1 s2,
    Demo.go true (pass true) Demo.primed = Some s1 ∧
    Forward_cpu Demo.top10 s1 = Some s2 ∧
    prefetch_free_ s2 = [1; 2] ++ [0] ∧ prefetch_full_ s2 = [] ∧
    delivered (trace s2) =
      delivered (trace Demo.primed)
      ++ [values (data_ (load_batch Demo.stamp_begin Demo.stamp_end
                           (loads Demo.primed) Demo.primed_batch))] ∧
    ∀ m, m = m_data ∨ output_labels_ Demo.primed = true →
      ∃ dst', top s2 !! top_index m = Some dst' ∧
        shape_ dst' =
          shape_ (get m (load_batch Demo.stamp_begin Demo.stamp_end
                           (loads Demo.primed) Demo.primed_batch)) ∧
        host dst' =
          values (get m (load_batch Demo.stamp_begin Demo.stamp_end
                           (loads Demo.primed) Demo.primed_batch)).
Proof.
  apply (X9_load_to_destination 3 true Demo.no_hook Demo.stamp_begin
           Demo.stamp_end Demo.primed Demo.top10 0 [1; 2] Demo.primed_batch);
    first [reflexivity | simpl; lia].
Defined.



Lemma X12_no_deadlock_witness :
  is_Some (perform 3 true Demo.no_hook Demo.stamp_begin Demo.stamp_end
             AWorker Demo.busy) ∨
  is_Some (perform 3 true Demo.no_hook Demo.stamp_begin Demo.stamp_end
             ADevice Demo.busy) ∨
  is_Some (perform 3 true Demo.no_hook Demo.stamp_begin Demo.stamp_end
             AConsumer Demo.busy).
Proof.
  apply (X12_no_deadlock 3 true Demo.no_hook Demo.stamp_begin Demo.stamp_end
           Demo.busy busy_reachable).
  - lia.
  - discriminate.
  - discriminate.
  - discriminate.
  - intros m b [= <- <-]. simpl. lia.
Defined.


Lemma X14_prefetch_ahead_witness :
  ∃ s', Demo.go true (passes true 3 ++ [AWorker]) Demo.primed = Some s' ∧
    wpc s' = WPop ∧
    InternalThreadEntry_step true Demo.stamp_begin Demo.stamp_end s' = None ∧
    prefetch_free_ s' = [] ∧ prefetch_full_ s' = [0; 1; 2] ∧
    loads s' = 3.
Proof.
  destruct (X14_prefetch_ahead 3 true Demo.no_hook Demo.stamp_begin
              Demo.stamp_end Demo.primed primed_reachable eq_refl eq_refl)
    as (s' & Hrun & Hw & Hstep & Hfr & Hfu & Hld & _).
  exists s'. repeat split; assumption.
Defined.

Lemma X15_shutdown_completes_witness :
  ∃ acts s',
    Forall (λ a, a = AWorker ∨ a = ADevice) acts ∧
    length acts ≤ 9 ∧
    Demo.go true acts (request_interruption Demo.busy) = Some s' ∧
    wpc s' = WDone ∧
    cpc s' = cpc Demo.busy ∧ top s' = top Demo.busy ∧
    loads Demo.busy ≤ loads s' ∧ loads s' ≤ S (loads Demo.busy).
Proof.
  apply (X15_shutdown_completes 3 true Demo.no_hook Demo.stamp_begin
           Demo.stamp_end (request_interruption Demo.busy)
           stopping_reachable); [reflexivity|discriminate].
Defined.

Lemma X16_calls_under_interleaving_witness :
  ∃ calls : list (bool * nat * Batch),
    consumer_trace (trace Demo.busy) =
    flat_map (λ c, call_events c.1.1 c.1.2 c.2) calls
    ++ call_in_progress Demo.busy.
Proof.
  exact (X16_calls_under_interleaving 3 true Demo.no_hook Demo.stamp_begin
           Demo.stamp_end Demo.busy busy_reachable).
Defined.
